(** * The Eeko Stream Deck plugin: the TriggerAutomation action

    A shallow embedding of [src/actions/trigger-automation.ts].  The class
    [TriggerAutomation] is a singleton action: one object serves every
    button, [ev.action] names the button an event is about, and the field
    [timeoutHandles] is shared by all of them.

    Conventions of the embedding.
    - A JavaScript string is a [string]; one [ascii] stands for one code
      unit, so [String.length] is the [.length] of the source.
    - An optional string property ([apiKey?], [automationId?],
      [automationName?]) is an [option string]; [truthy] is the test that
      [if (x)], [!x] and [x || y] perform on it.
    - An [async] method is a computation in the monad [Js]: it threads the
      state of the plugin and of the device and ends normally or with a
      thrown value (a rejected promise).  A handler runs to completion
      before the next event is delivered; what the outside world answers
      during one handler (the settings store, the network, the property
      inspector) is the [Env] the handler is given.
    - The host calls [setTitle], [setImage], [showAlert] and
      [sendToPropertyInspector] are taken not to fail.
    - Time is in milliseconds. *)

From Stdlib Require Import DecimalString.
From stdpp Require Import gmap strings list sorting.

Local Open Scope string_scope.

(** ** Strings and values *)

Definition nl : string := String (Ascii.ascii_of_nat 10) EmptyString.

(** [x] used as a condition, for [x : string | undefined]. *)
Definition truthy (x : option string) : bool :=
  match x with
  | Some (String _ _) => true
  | _ => false
  end.

(** The string held by a truthy [x]. *)
Definition the (x : option string) : string := default EmptyString x.

(** [x || d] *)
Definition orElse (x : option string) (d : string) : string :=
  if truthy x then the x else d.

(** [hay.includes(needle)] *)
Fixpoint includes (needle hay : string) : bool :=
  String.prefix needle hay ||
  match hay with
  | EmptyString => false
  | String _ rest => includes needle rest
  end.

(** [`${n}`] for a non-negative integer. *)
Definition showN (n : N) : string := NilEmpty.string_of_uint (N.to_uint n).

Inductive JsValue :=
| JsUndefined
| JsNull
| JsBoolean (b : bool)
| JsNumber (n : Z)
| JsString (s : string).

(** What a [catch] clause receives: an [Error] object with its message, or
    any other value. *)
Inductive Thrown :=
| ErrorObject (message : string)
| NonError (v : JsValue).

(** ** Data of the action *)

Record AutomationSettings := {
  automationId : option string;
  automationName : option string
}.

Definition noSettings : AutomationSettings :=
  {| automationId := None; automationName := None |}.

Record AutomationData := {
  id : string;
  name : string;
  description : option string
}.

Record PIPayload := {
  action : string;
  data_apiKey : option string
}.

(** The messages sent to the property inspector, one constructor per
    [event] name. *)
Inductive PIEvent :=
| apiKeyLoaded (apiKey : string)
| apiKeyTested (valid : bool) (error : option string)
| automationsLoaded (automations : list AutomationData)
| automationsError (error : string)
| apiKeyError (error : string).

Definition automationsUrl : string := "https://api.eeko.app/api/triggers/automations".
Definition triggerUrl : string := "https://api.eeko.app/api/triggers/streamdeck".
Definition keyImage : string := "imgs/actions/automation/key".
Definition keyPressedImage : string := "imgs/actions/automation/key-pressed".

(** Everything the plugin does to the outside, in the order it happens.  A
    request is recorded with its URL and the key sent in the header
    [x-eeko-api-key]; of the body of the trigger request the payload is
    recorded ([ev.action.id] and the automation id), the device label and
    the time stamp are not. *)
Inductive Effect :=
| SetTitle (a : string) (title : string)
| SetImage (a : string) (image : string)
| ShowAlert (a : string)
| HttpGet (url : string) (key : string)
| HttpPost (url : string) (key : string) (actionId : string) (automation : string)
| SendToPropertyInspector (p : PIEvent)
| SetGlobalSettings (g : gmap string string).

(** ** The network *)

(** [await response.json()] followed by [.automations]: the list, absent, or
    a failure while reading the body. *)
Inductive Body :=
| BodyJson (automations : option (list AutomationData))
| BodyFails (e : Thrown).

Record Response := {
  status : N;
  body : Body
}.

(** [response.ok]: the status is in the range 200-299. *)
Definition ok (r : Response) : bool :=
  (200 <=? status r)%N && (status r <=? 299)%N.

Inductive FetchResult :=
| Responds (r : Response)
| Rejects (e : Thrown).

(** The answers of the outside world during one handler. *)
Record Env := {
  env_getGlobal : option Thrown;  (* getGlobalSettings rejects with ... *)
  env_setGlobal : option Thrown;  (* setGlobalSettings rejects with ... *)
  env_ui : bool;                  (* streamDeck.ui.current is defined *)
  env_fetch : FetchResult;        (* outcome of the first fetch *)
  env_fetch2 : FetchResult        (* outcome of the second fetch *)
}.

(** ** State *)

(** A pending [setTimeout].  Every callback of the source sets the title of
    one button, two of them the image as well, and then removes its own
    handle from [timeoutHandles]. *)
Record Timer := {
  handle : nat;
  due : N;
  cb_action : string;
  cb_title : string;
  cb_image : option string
}.

Record State := {
  globals : gmap string string;          (* the global settings store *)
  timeoutHandles : gset nat;             (* this.timeoutHandles *)
  timers : list Timer;                   (* the timer queue of the runtime *)
  now : N;
  nextHandle : nat;
  titles : gmap string string;           (* what each button shows *)
  images : gmap string string;
  trace : list Effect
}.

Definition initial (g : gmap string string) : State :=
  {| globals := g; timeoutHandles := ∅; timers := []; now := 0%N;
     nextHandle := 0; titles := ∅; images := ∅; trace := [] |}.

Definition with_globals (g : gmap string string) (s : State) : State :=
  {| globals := g; timeoutHandles := timeoutHandles s; timers := timers s;
     now := now s; nextHandle := nextHandle s; titles := titles s;
     images := images s; trace := trace s |}.

Definition with_handles (h : gset nat) (s : State) : State :=
  {| globals := globals s; timeoutHandles := h; timers := timers s;
     now := now s; nextHandle := nextHandle s; titles := titles s;
     images := images s; trace := trace s |}.

Definition with_timers (ts : list Timer) (s : State) : State :=
  {| globals := globals s; timeoutHandles := timeoutHandles s; timers := ts;
     now := now s; nextHandle := nextHandle s; titles := titles s;
     images := images s; trace := trace s |}.

Definition with_now (t : N) (s : State) : State :=
  {| globals := globals s; timeoutHandles := timeoutHandles s; timers := timers s;
     now := t; nextHandle := nextHandle s; titles := titles s;
     images := images s; trace := trace s |}.

Definition with_nextHandle (n : nat) (s : State) : State :=
  {| globals := globals s; timeoutHandles := timeoutHandles s; timers := timers s;
     now := now s; nextHandle := n; titles := titles s;
     images := images s; trace := trace s |}.

Definition with_titles (m : gmap string string) (s : State) : State :=
  {| globals := globals s; timeoutHandles := timeoutHandles s; timers := timers s;
     now := now s; nextHandle := nextHandle s; titles := m;
     images := images s; trace := trace s |}.

Definition with_images (m : gmap string string) (s : State) : State :=
  {| globals := globals s; timeoutHandles := timeoutHandles s; timers := timers s;
     now := now s; nextHandle := nextHandle s; titles := titles s;
     images := m; trace := trace s |}.

Definition logged (e : Effect) (s : State) : State :=
  {| globals := globals s; timeoutHandles := timeoutHandles s; timers := timers s;
     now := now s; nextHandle := nextHandle s; titles := titles s;
     images := images s; trace := trace s ++ [e] |}.

(** ** The monad of handlers *)

Inductive Completion (A : Type) :=
| Normal (a : A)
| Abrupt (e : Thrown).
Arguments Normal {A} a.
Arguments Abrupt {A} e.

Definition Js (A : Type) : Type := State → Completion A * State.

Definition ret {A} (a : A) : Js A := λ s, (Normal a, s).

Definition bind {A B} (m : Js A) (k : A → Js B) : Js B :=
  λ s, match m s with
       | (Normal a, s') => k a s'
       | (Abrupt e, s') => (Abrupt e, s')
       end.

Definition throw {A} (e : Thrown) : Js A := λ s, (Abrupt e, s).

(** [try { body } catch (error) { handler }] *)
Definition tryCatch {A} (body : Js A) (handler : Thrown → Js A) : Js A :=
  λ s, match body s with
       | (Normal a, s') => (Normal a, s')
       | (Abrupt e, s') => handler e s'
       end.

Definition modify (f : State → State) : Js unit := λ s, (Normal tt, f s).

Declare Scope js_scope.
Delimit Scope js_scope with js.
Notation "x <- m ;; k" := (bind m (λ x, k))
  (at level 100, m at next level, right associativity) : js_scope.
Notation "m ;; k" := (bind m (λ _, k))
  (at level 100, right associativity) : js_scope.
Local Open Scope js_scope.

(** The state a handler leaves, whichever way it ends. *)
Definition exec {A} (m : Js A) (s : State) : State := snd (m s).

(** ** The host and the runtime *)

Definition setTitle (a title : string) : Js unit :=
  modify (λ s, logged (SetTitle a title) (with_titles (<[a := title]> (titles s)) s)).

Definition setImage (a image : string) : Js unit :=
  modify (λ s, logged (SetImage a image) (with_images (<[a := image]> (images s)) s)).

Definition showAlert (a : string) : Js unit := modify (logged (ShowAlert a)).

(** [streamDeck.ui.current?.sendToPropertyInspector(p)] *)
Definition sendToPropertyInspector (env : Env) (p : PIEvent) : Js unit :=
  if env_ui env then modify (logged (SendToPropertyInspector p)) else ret tt.

Definition getGlobalSettings (env : Env) : Js (gmap string string) :=
  λ s, match env_getGlobal env with
       | None => (Normal (globals s), s)
       | Some e => (Abrupt e, s)
       end.

Definition setGlobalSettings (env : Env) (g : gmap string string) : Js unit :=
  match env_setGlobal env with
  | None => modify (λ s, logged (SetGlobalSettings g) (with_globals g s))
  | Some e => throw e
  end.

(** [fetch]: the request goes out, then the answer is awaited. *)
Definition fetch (request : Effect) (answer : FetchResult) : Js Response :=
  modify (logged request);;
  match answer with
  | Responds r => ret r
  | Rejects e => throw e
  end.

(** [(await response.json()).automations || []] *)
Definition automationsOf (r : Response) : Js (list AutomationData) :=
  match body r with
  | BodyJson l => ret (default [] l)
  | BodyFails e => throw e
  end.

(** The timer queue is kept in the order in which timers fire: by time, and
    among equal times in the order of the [setTimeout] calls. *)
Fixpoint enqueue (t : Timer) (q : list Timer) : list Timer :=
  match q with
  | [] => [t]
  | x :: q' => if (due x <=? due t)%N then x :: enqueue t q' else t :: q
  end.

(** [setTimeout(callback, delay)], returning the handle. *)
Definition setTimeout (a title : string) (image : option string) (delay : N) : Js nat :=
  λ s, let h := nextHandle s in
       let t := {| handle := h; due := (now s + delay)%N; cb_action := a;
                   cb_title := title; cb_image := image |} in
       (Normal h, with_nextHandle (S h) (with_timers (enqueue t (timers s)) s)).

(** [clearTimeout(h)] *)
Definition clearTimeout (h : nat) (q : list Timer) : list Timer :=
  filter (λ t, handle t ≠ h) q.

(** [this.timeoutHandles.add(h)] *)
Definition handlesAdd (h : nat) : Js unit :=
  modify (λ s, with_handles ({[h]} ∪ timeoutHandles s) s).

(** [this.timeoutHandles.delete(h)] *)
Definition handlesDelete (h : nat) : Js unit :=
  modify (λ s, with_handles (timeoutHandles s ∖ {[h]}) s).

(** The body of a timer callback. *)
Definition callback (t : Timer) : Js unit :=
  setTitle (cb_action t) (cb_title t);;
  match cb_image t with
  | Some i => setImage (cb_action t) i
  | None => ret tt
  end;;
  handlesDelete (handle t).

(** The clock advances by [d]: the timers that are due leave the queue and
    their callbacks run, in queue order. *)
Definition elapse (d : N) (s : State) : State :=
  let t' := (now s + d)%N in
  let fired := filter (λ t, (due t ≤ t')%N) (timers s) in
  let rest := filter (λ t, ¬ (due t ≤ t')%N) (timers s) in
  foldl (λ s t, exec (callback t) s) (with_now t' (with_timers rest s)) fired.

(** ** The class TriggerAutomation *)

(** [getApiKey]: a failing read of the store is swallowed. *)
Definition getApiKey (env : Env) : Js (option string) :=
  tryCatch
    (globalSettings <- getGlobalSettings env;;
     ret (globalSettings !! "apiKey"))
    (λ _, ret None).

(** The character class [[a-zA-Z0-9_-]]. *)
Definition keyChar (c : Ascii.ascii) : bool :=
  let n := Ascii.N_of_ascii c in
  ((97 <=? n) && (n <=? 122) || (65 <=? n) && (n <=? 90) ||
   (48 <=? n) && (n <=? 57) || (n =? 95) || (n =? 45))%N.

Fixpoint allKeyChars (s : string) : bool :=
  match s with
  | EmptyString => true
  | String c rest => keyChar c && allKeyChars rest
  end.

(** [/^[a-zA-Z0-9_-]+$/.test(s)]: one or more characters of the class, from
    the start of the input to its end. *)
Definition keyPattern (s : string) : bool :=
  match s with
  | EmptyString => false
  | String _ _ => allKeyChars s
  end.

Definition validateApiKey (apiKey : string) : bool :=
  (10 <? String.length apiKey)%nat && (String.length apiKey <? 200)%nat && keyPattern apiKey.

Definition saveApiKey (env : Env) (apiKey : string) : Js unit :=
  if negb (validateApiKey apiKey) then throw (ErrorObject "Invalid API key format")
  else
    globalSettings <- getGlobalSettings env;;
    setGlobalSettings env (<["apiKey" := apiKey]> globalSettings).

Definition onWillAppear (a : string) (settings : AutomationSettings) : Js unit :=
  if truthy (automationName settings) then setTitle a (the (automationName settings))
  else setTitle a ("Configure" +:+ nl +:+ "Automation").

Definition validateApiKeyAndFetchAutomations (env : Env) (apiKey : string) : Js unit :=
  tryCatch
    (response <- fetch (HttpGet automationsUrl apiKey) (env_fetch env);;
     if ok response then
       automations <- automationsOf response;;
       sendToPropertyInspector env (automationsLoaded automations)
     else
       sendToPropertyInspector env
         (apiKeyError ("API key validation failed: " +:+ showN (status response))))
    (λ _, sendToPropertyInspector env
            (apiKeyError "Connection error - check your internet connection")).

Definition onDidReceiveSettings (env : Env) (a : string) (settings : AutomationSettings)
  : Js unit :=
  (if truthy (automationName settings) then setTitle a (the (automationName settings))
   else
     apiKey <- getApiKey env;;
     if truthy apiKey then setTitle a ("Select" +:+ nl +:+ "Automation")
     else setTitle a ("Configure" +:+ nl +:+ "Automation"));;
  apiKey <- getApiKey env;;
  if truthy apiKey && negb (truthy (automationId settings))
  then validateApiKeyAndFetchAutomations env (the apiKey)
  else ret tt.

Definition onKeyDown (a : string) (settings : AutomationSettings) : Js unit := ret tt.

(** The label shown for a caught value. *)
Definition errorMessage (error : Thrown) : string :=
  match error with
  | ErrorObject message => if includes "API" message then "API Error" else "Failed"
  | NonError _ => "Error"
  end.

Definition onKeyUp (env : Env) (a : string) (settings : AutomationSettings) : Js unit :=
  tryCatch
    (apiKey <- getApiKey env;;
     if negb (truthy apiKey) then
       setTitle a ("Missing" +:+ nl +:+ "API Key");;
       showAlert a;;
       timeout <- setTimeout a ("Configure" +:+ nl +:+ "Automation") None 3000;;
       handlesAdd timeout
     else if negb (truthy (automationId settings)) || negb (truthy (automationName settings))
     then
       setTitle a ("No Automation" +:+ nl +:+ "Selected");;
       showAlert a;;
       timeout <- setTimeout a ("Select" +:+ nl +:+ "Automation") None 3000;;
       handlesAdd timeout
     else
       setTitle a ("Triggering" +:+ nl +:+ the (automationName settings));;
       triggerResponse <-
         fetch (HttpPost triggerUrl (the apiKey) a (the (automationId settings)))
               (env_fetch env);;
       if ok triggerResponse then
         setTitle a ("Triggered!" +:+ nl +:+ the (automationName settings));;
         setImage a keyPressedImage;;
         timeout <- setTimeout a (the (automationName settings)) (Some keyImage) 2000;;
         handlesAdd timeout
       else throw (ErrorObject "Failed to trigger automation"))
    (λ error,
       setTitle a ("Error" +:+ nl +:+ errorMessage error);;
       showAlert a;;
       timeout <- setTimeout a
         (orElse (automationName settings) ("Configure" +:+ nl +:+ "Automation")) None 3000;;
       handlesAdd timeout).

(** [this.timeoutHandles.forEach(timeout => clearTimeout(timeout))], then
    [this.timeoutHandles.clear()]. *)
Definition cleanupTimeouts : Js unit :=
  modify (λ s, with_handles ∅
                 (with_timers (foldr clearTimeout (timers s) (elements (timeoutHandles s))) s)).

Definition onWillDisappear : Js unit := cleanupTimeouts.

Definition handleGetApiKey (env : Env) : Js unit :=
  apiKey <- getApiKey env;;
  sendToPropertyInspector env (apiKeyLoaded (orElse apiKey EmptyString)).

(** [(error as Error).message]: reading a property of [undefined] or [null]
    throws; any other value that is not an [Error] has no message. *)
Definition messageOf (error : Thrown) : Js (option string) :=
  match error with
  | ErrorObject message => ret (Some message)
  | NonError JsUndefined | NonError JsNull =>
      throw (ErrorObject "Cannot read properties of undefined (reading 'message')")
  | NonError _ => ret None
  end.

Definition handleFetchAutomations (env : Env) (apiKey : string) (answer : FetchResult)
  : Js unit :=
  tryCatch
    (response <- fetch (HttpGet automationsUrl apiKey) answer;;
     if ok response then
       streamDeckAutomations <- automationsOf response;;
       sendToPropertyInspector env (automationsLoaded streamDeckAutomations)
     else
       throw (ErrorObject ("Failed to fetch automations: " +:+ showN (status response))))
    (λ error,
       message <- messageOf error;;
       sendToPropertyInspector env
         (automationsError (orElse message "Failed to load automations"))).

Definition handleTestApiKey (env : Env) (apiKey : string) : Js unit :=
  tryCatch
    (response <- fetch (HttpGet automationsUrl apiKey) (env_fetch env);;
     if ok response then
       sendToPropertyInspector env (apiKeyTested true None);;
       handleFetchAutomations env apiKey (env_fetch2 env)
     else
       let errorMessage :=
         if (status response =? 401)%N then "Invalid or expired API key"
         else if (status response =? 403)%N then "API key does not have required permissions"
         else "API error: " +:+ showN (status response) in
       sendToPropertyInspector env (apiKeyTested false (Some errorMessage)))
    (λ _, sendToPropertyInspector env
            (apiKeyTested false (Some "Connection error - check your internet connection"))).

Definition onSendToPlugin (env : Env) (payload : PIPayload) : Js unit :=
  if String.eqb (action payload) "saveApiKey" then
    if truthy (data_apiKey payload) then
      saveApiKey env (the (data_apiKey payload));;
      handleTestApiKey env (the (data_apiKey payload))
    else ret tt
  else if String.eqb (action payload) "testApiKey" then
    if truthy (data_apiKey payload) then handleTestApiKey env (the (data_apiKey payload))
    else ret tt
  else if String.eqb (action payload) "fetchAutomations" then
    if truthy (data_apiKey payload)
    then handleFetchAutomations env (the (data_apiKey payload)) (env_fetch env)
    else ret tt
  else if String.eqb (action payload) "getApiKey" then handleGetApiKey env
  else ret tt.

(** ** Events *)

Inductive Event :=
| WillAppear (a : string) (settings : AutomationSettings)
| DidReceiveSettings (env : Env) (a : string) (settings : AutomationSettings)
| KeyDown (a : string) (settings : AutomationSettings)
| KeyUp (env : Env) (a : string) (settings : AutomationSettings)
| WillDisappear
| SendToPlugin (env : Env) (payload : PIPayload)
| Elapse (d : N).

Definition step (s : State) (e : Event) : State :=
  match e with
  | WillAppear a settings => exec (onWillAppear a settings) s
  | DidReceiveSettings env a settings => exec (onDidReceiveSettings env a settings) s
  | KeyDown a settings => exec (onKeyDown a settings) s
  | KeyUp env a settings => exec (onKeyUp env a settings) s
  | WillDisappear => exec onWillDisappear s
  | SendToPlugin env payload => exec (onSendToPlugin env payload) s
  | Elapse d => elapse d s
  end.

Definition run (events : list Event) (s : State) : State := foldl step s events.

(** The credential a handler finds in the store. *)
Definition storedCredential (env : Env) (s : State) : option string :=
  match env_getGlobal env with
  | None => globals s !! "apiKey"
  | Some _ => None
  end.

(** An environment in which the store works, the property inspector is open
    and the network answers [r] (to both requests, if there are two). *)
Definition calm (r : FetchResult) : Env :=
  {| env_getGlobal := None; env_setGlobal := None; env_ui := true;
     env_fetch := r; env_fetch2 := r |}.

(** ** Vocabulary of the statements *)

Local Open Scope list_scope.

(** Membership in [[A-Za-z0-9_-]], by character code: a-z, A-Z, 0-9, the
    underscore and the hyphen. *)
Definition inKeyClass (c : Ascii.ascii) : Prop :=
  let n := Ascii.N_of_ascii c in
  (97 ≤ n ≤ 122 ∨ 65 ≤ n ≤ 90 ∨ 48 ≤ n ≤ 57 ∨ n = 95 ∨ n = 45)%N.

(** [needle] occurs in [hay]. *)
Definition contains (needle hay : string) : Prop :=
  ∃ pre post, hay = pre +:+ needle +:+ post.

(** The thrown value that the [catch] clause of [onKeyUp] receives for an
    answer to the trigger request, if any. *)
Definition failure (answer : FetchResult) : option Thrown :=
  match answer with
  | Rejects e => Some e
  | Responds r => if ok r then None else Some (ErrorObject "Failed to trigger automation")
  end.

(** The state in which the trigger request has just been sent. *)
Definition triggering (env : Env) (a : string) (settings : AutomationSettings) (s : State)
  : State :=
  exec (setTitle a ("Triggering" +:+ nl +:+ the (automationName settings));;
        modify (logged (HttpPost triggerUrl (the (storedCredential env s)) a
                          (the (automationId settings))))) s.

Definition byDue (x y : Timer) : Prop := (due x ≤ due y)%N.

(** What holds of the timers between two events: every pending timer has
    its handle in [timeoutHandles], handles are not reused, and the queue
    is in firing order. *)
Record wellFormed (s : State) : Prop := {
  wf_tracked : ∀ t, t ∈ timers s → handle t ∈ timeoutHandles s;
  wf_fresh : ∀ t, t ∈ timers s → handle t < nextHandle s;
  wf_distinct : ∀ t t', t ∈ timers s → t' ∈ timers s → handle t = handle t' → t = t';
  wf_sorted : StronglySorted byDue (timers s)
}.

(** Handlers that leave the timers alone. *)
Definition quiet {A} (m : Js A) : Prop :=
  ∀ s, timers (m s).2 = timers s ∧ timeoutHandles (m s).2 = timeoutHandles s ∧
       nextHandle (m s).2 = nextHandle s ∧ now (m s).2 = now s.

(** Handlers that keep the timers well formed. *)
Definition keeps {A} (m : Js A) : Prop :=
  ∀ s, wellFormed s → wellFormed (m s).2.

(** The requests, the relays to the property inspector and the writes to
    the settings store in a trace. *)
Definition isRequest (e : Effect) : bool :=
  match e with
  | HttpGet _ _ | HttpPost _ _ _ _ => true
  | _ => false
  end.

Definition isRelay (e : Effect) : bool :=
  match e with
  | SendToPropertyInspector _ => true
  | _ => false
  end.

Definition isWrite (e : Effect) : bool :=
  match e with
  | SetGlobalSettings _ => true
  | _ => false
  end.

Definition isDisplay (e : Effect) : bool :=
  match e with
  | SetTitle _ _ | SetImage _ _ => true
  | _ => false
  end.

Definition requests (tr : list Effect) : list Effect := List.filter isRequest tr.
Definition relays (tr : list Effect) : list Effect := List.filter isRelay tr.
Definition writes (tr : list Effect) : list Effect := List.filter isWrite tr.

(** The test of [onKeyUp] on the settings: both fields are set. *)
Definition configured (settings : AutomationSettings) : bool :=
  truthy (automationId settings) && truthy (automationName settings).

(** The handles of the pending timers. *)
Definition pendingHandles (s : State) : gset nat :=
  list_to_set (handle <$> timers s).

(** A handler leaves one aspect [f] of the state as it was. *)
Definition untouched {F A} (f : State → F) (m : Js A) : Prop :=
  ∀ s, f (m s).2 = f s.

(** A handler that cannot end with a thrown value. *)
Definition endsNormally {A} (m : Js A) : Prop :=
  ∀ s, ∃ x, (m s).1 = Normal x.

(** The events that can change the timer queue: a key-up schedules, a
    disappear cancels, the clock fires. *)
Definition touchesTimers (e : Event) : bool :=
  match e with
  | KeyUp _ _ _ | WillDisappear | Elapse _ => true
  | _ => false
  end.

(** Further facts about the timers between two events: [timeoutHandles]
    holds no handle without a pending timer, and every pending timer is due
    in the future, at most 3000 ms ahead. *)
Record settled (s : State) : Prop := {
  st_exact : ∀ h, h ∈ timeoutHandles s → ∃ t, t ∈ timers s ∧ handle t = h;
  st_due : ∀ t, t ∈ timers s → (now s < due t ≤ now s + 3000)%N
}.

(** Unfolding handlers in proofs. *)

Ltac js_monad :=
  unfold tryCatch, bind, ret, throw, modify, exec in *.

Ltac js_host :=
  unfold getApiKey, getGlobalSettings, setGlobalSettings, fetch, automationsOf,
    sendToPropertyInspector, setTitle, setImage, showAlert, setTimeout,
    handlesAdd, handlesDelete, messageOf in *.

Ltac js_unfold h := unfold h in *; js_host; js_monad; cbn beta iota.

(** * Properties *)

(** ** The format of a credential *)

Lemma keyChar_spec c : keyChar c = true ↔ inKeyClass c.
Proof.
  unfold keyChar, inKeyClass. cbv zeta.
  generalize (Ascii.N_of_ascii c). intros n.
  rewrite !orb_true_iff, !andb_true_iff, !N.leb_le, !N.eqb_eq. tauto.
Qed.

Lemma allKeyChars_spec s :
  allKeyChars s = true ↔ Forall inKeyClass (String.list_ascii_of_string s).
Proof.
  induction s as [|c s IH]; simpl.
  - split; [constructor | reflexivity].
  - rewrite andb_true_iff, keyChar_spec, IH, Forall_cons. reflexivity.
Qed.

(** C3: the credential format check accepts exactly the strings of length
    11 to 199 all of whose characters are letters, digits, underscore or
    hyphen. *)
Theorem validateApiKey_exact (s : string) :
  validateApiKey s = true ↔
  10 < String.length s < 200 ∧ Forall inKeyClass (String.list_ascii_of_string s).
Proof.
  unfold validateApiKey.
  rewrite !andb_true_iff, !Nat.ltb_lt.
  destruct s as [|c s].
  - simpl. split; [intros [_ ?]; discriminate | intros [[? _] _]; lia].
  - unfold keyPattern. rewrite allKeyChars_spec. tauto.
Qed.

Lemma validateApiKey_iff (s : string) :
  validateApiKey s = true ↔
  10 < String.length s < 200 ∧ Forall inKeyClass (String.list_ascii_of_string s).
Proof.
  unfold validateApiKey.
  rewrite !andb_true_iff, !Nat.ltb_lt.
  destruct s as [|c s]; [simpl; intuition (discriminate || lia)|].
  unfold keyPattern. rewrite allKeyChars_spec. tauto.
Qed.

Corollary validateApiKey_empty : validateApiKey EmptyString = false.
Proof. reflexivity. Qed.

Corollary validateApiKey_length_10_200 (s : string) :
  String.length s = 10 ∨ String.length s = 200 → validateApiKey s = false.
Proof.
  intros H. apply not_true_is_false. rewrite validateApiKey_iff. lia.
Qed.

Corollary validateApiKey_foreign_char (s : string) (c : Ascii.ascii) :
  c ∈ String.list_ascii_of_string s → ¬ inKeyClass c → validateApiKey s = false.
Proof.
  intros Hin Hc. apply not_true_is_false. rewrite validateApiKey_iff.
  intros [_ Hall]. rewrite Forall_forall in Hall. exact (Hc (Hall c Hin)).
Qed.

Corollary space_and_at_outside_class :
  ¬ inKeyClass (Ascii.ascii_of_nat 32) ∧ ¬ inKeyClass (Ascii.ascii_of_nat 64).
Proof. unfold inKeyClass. simpl. lia. Qed.

(** ** Messages from the property inspector *)

(** C10: a message with an unknown action, and a saveApiKey, testApiKey or
    fetchAutomations message without a key (absent or empty), leaves the
    state as it is: nothing is written to the settings, no request is sent,
    nothing is relayed, and the handler ends normally. *)
Theorem onSendToPlugin_noop (env : Env) (payload : PIPayload) (s : State) :
  action payload ∉ ["saveApiKey"; "testApiKey"; "fetchAutomations"; "getApiKey"] ∨
  (action payload ∈ ["saveApiKey"; "testApiKey"; "fetchAutomations"] ∧
   truthy (data_apiKey payload) = false) →
  onSendToPlugin env payload s = (Normal tt, s).
Proof.
  intros H. unfold onSendToPlugin.
  rewrite !elem_of_cons, !elem_of_nil in H.
  destruct (String.eqb_spec (action payload) "saveApiKey") as [E1|N1];
    [|destruct (String.eqb_spec (action payload) "testApiKey") as [E2|N2];
      [|destruct (String.eqb_spec (action payload) "fetchAutomations") as [E3|N3];
        [|destruct (String.eqb_spec (action payload) "getApiKey") as [E4|N4]]]].
  1-3: destruct H as [H|[_ H]]; [tauto | rewrite H; reflexivity].
  - tauto.
  - reflexivity.
Qed.

Lemma onSendToPlugin_noop_witness :
  onSendToPlugin
    (calm (Responds {| status := 200; body := BodyJson None |}))
    {| action := "reload"; data_apiKey := Some "abcdefghijkl" |}
    (initial ∅) = (Normal tt, initial ∅)
  ∧ onSendToPlugin
      (calm (Responds {| status := 200; body := BodyJson None |}))
      {| action := "saveApiKey"; data_apiKey := Some EmptyString |}
      (initial ∅) = (Normal tt, initial ∅).
Proof.
  split.
  - apply onSendToPlugin_noop. left. simpl.
    rewrite !elem_of_cons, elem_of_nil. intros [?|[?|[?|[?|[]]]]]; discriminate.
  - apply onSendToPlugin_noop. right. simpl.
    split; [apply list_elem_of_here | reflexivity].
Defined.

(** The claim C7 has the validation failure stay inside the message
    handler.  Here a saveApiKey message with a key containing a space ends
    the handler with the thrown error. *)
Lemma saveApiKey_invalid_escapes :
  validateApiKey "bad key" = false ∧
  (onSendToPlugin
     (calm (Responds {| status := 200; body := BodyJson None |}))
     {| action := "saveApiKey"; data_apiKey := Some "bad key" |}
     (initial ∅)).1 ≠ Normal tt.
Proof. split; [reflexivity | discriminate]. Qed.

(** C7, amended: a saveApiKey message whose key fails the format check ends
    the handler by throwing the error "Invalid API key format"; the state
    is untouched, so the stored credential is unchanged, no request is sent
    and nothing is relayed. *)
Theorem saveApiKey_invalid_rejected (env : Env) (payload : PIPayload) (s : State) :
  action payload = "saveApiKey" →
  truthy (data_apiKey payload) = true →
  validateApiKey (the (data_apiKey payload)) = false →
  onSendToPlugin env payload s = (Abrupt (ErrorObject "Invalid API key format"), s).
Proof.
  intros Ha Hk Hv. unfold onSendToPlugin. rewrite Ha, Hk. simpl.
  js_unfold saveApiKey. rewrite Hv. reflexivity.
Qed.

Lemma saveApiKey_invalid_rejected_witness :
  onSendToPlugin
    (calm (Responds {| status := 200; body := BodyJson None |}))
    {| action := "saveApiKey"; data_apiKey := Some "short" |}
    (initial {["apiKey" := "abcdefghijkl"]})
  = (Abrupt (ErrorObject "Invalid API key format"),
     initial {["apiKey" := "abcdefghijkl"]}).
Proof. apply saveApiKey_invalid_rejected; reflexivity. Defined.

(** A valid key is stored under [apiKey], the other global settings kept. *)
Lemma saveApiKey_valid_stores (env : Env) (apiKey : string) (s : State) :
  validateApiKey apiKey = true →
  env_getGlobal env = None → env_setGlobal env = None →
  globals (exec (saveApiKey env apiKey) s) = <["apiKey" := apiKey]> (globals s).
Proof.
  intros Hv Hg Hs. js_unfold saveApiKey. rewrite Hv, Hg, Hs. reflexivity.
Qed.

(** ** What the catalogue fetch relays *)

(** C5 fails on the code: when the request of [handleFetchAutomations]
    fails with an error, the message of that error is relayed to the
    property inspector word for word. *)
Theorem handleFetchAutomations_relays_raw_message
    (env : Env) (apiKey message : string) (s : State) :
  env_ui env = true →
  message ≠ EmptyString →
  trace (exec (handleFetchAutomations env apiKey (Rejects (ErrorObject message))) s)
  = trace s ++ [HttpGet automationsUrl apiKey;
                SendToPropertyInspector (automationsError message)].
Proof.
  intros Hui Hm. js_unfold handleFetchAutomations. rewrite Hui.
  destruct message as [|c m]; [congruence|]. simpl.
  rewrite <- app_assoc. reflexivity.
Qed.

Lemma handleFetchAutomations_relays_raw_message_witness :
  trace (exec (onSendToPlugin
                 (calm (Rejects (ErrorObject "getaddrinfo ENOTFOUND api.eeko.app")))
                 {| action := "fetchAutomations"; data_apiKey := Some "abcdefghijkl" |})
              (initial ∅))
  = [HttpGet automationsUrl "abcdefghijkl";
     SendToPropertyInspector (automationsError "getaddrinfo ENOTFOUND api.eeko.app")].
Proof.
  apply (handleFetchAutomations_relays_raw_message
           (calm (Rejects (ErrorObject "getaddrinfo ENOTFOUND api.eeko.app")))
           "abcdefghijkl" "getaddrinfo ENOTFOUND api.eeko.app" (initial ∅));
    [reflexivity | discriminate].
Defined.

(** The same holds for an error raised while the body of an accepted
    response is read. *)
Lemma handleFetchAutomations_relays_body_error
    (env : Env) (apiKey message : string) (n : N) (s : State) :
  env_ui env = true → message ≠ EmptyString →
  ok {| status := n; body := BodyFails (ErrorObject message) |} = true →
  trace (exec (handleFetchAutomations env apiKey
                 (Responds {| status := n; body := BodyFails (ErrorObject message) |})) s)
  = trace s ++ [HttpGet automationsUrl apiKey;
                SendToPropertyInspector (automationsError message)].
Proof.
  intros Hui Hm Hok. js_unfold handleFetchAutomations. rewrite Hui, Hok.
  destruct message as [|c m]; [congruence|]. simpl.
  rewrite <- app_assoc. reflexivity.
Qed.

(** A response that is not ok is relayed as a text made here from the
    status alone. *)
Lemma handleFetchAutomations_status_label
    (env : Env) (apiKey : string) (r : Response) (s : State) :
  env_ui env = true → ok r = false →
  trace (exec (handleFetchAutomations env apiKey (Responds r)) s)
  = trace s ++ [HttpGet automationsUrl apiKey;
                SendToPropertyInspector
                  (automationsError ("Failed to fetch automations: " +:+ showN (status r)))].
Proof.
  intros Hui Hok. js_unfold handleFetchAutomations. rewrite Hui, Hok. simpl.
  rewrite <- app_assoc. reflexivity.
Qed.

(** The sibling handlers relay a fixed text whatever the request failed
    with. *)
Lemma handleTestApiKey_fixed_label (env : Env) (apiKey : string) (e : Thrown) (s : State) :
  env_ui env = true → env_fetch env = Rejects e →
  trace (exec (handleTestApiKey env apiKey) s)
  = trace s ++ [HttpGet automationsUrl apiKey;
                SendToPropertyInspector
                  (apiKeyTested false
                     (Some "Connection error - check your internet connection"))].
Proof.
  intros Hui Hf. js_unfold handleTestApiKey. rewrite Hui, Hf. simpl.
  rewrite <- app_assoc. reflexivity.
Qed.

Lemma validateApiKeyAndFetchAutomations_fixed_label
    (env : Env) (apiKey : string) (e : Thrown) (s : State) :
  env_ui env = true → env_fetch env = Rejects e →
  trace (exec (validateApiKeyAndFetchAutomations env apiKey) s)
  = trace s ++ [HttpGet automationsUrl apiKey;
                SendToPropertyInspector
                  (apiKeyError "Connection error - check your internet connection")].
Proof.
  intros Hui Hf. js_unfold validateApiKeyAndFetchAutomations. rewrite Hui, Hf. simpl.
  rewrite <- app_assoc. reflexivity.
Qed.

(** ** Appearing and changed settings *)

Lemma getApiKey_stored (env : Env) (s : State) :
  getApiKey env s = (Normal (storedCredential env s), s).
Proof.
  unfold getApiKey, storedCredential, getGlobalSettings. js_monad.
  destruct (env_getGlobal env); reflexivity.
Qed.

Lemma validateApiKeyAndFetchAutomations_display (env : Env) (apiKey : string) (s : State) :
  let s' := exec (validateApiKeyAndFetchAutomations env apiKey) s in
  titles s' = titles s ∧ images s' = images s ∧
  ∃ rest, trace s' = trace s ++ HttpGet automationsUrl apiKey :: rest.
Proof.
  js_unfold validateApiKeyAndFetchAutomations.
  destruct (env_fetch env) as [r|e]; simpl.
  - destruct (ok r); simpl.
    + destruct (body r) as [l|e]; simpl; destruct (env_ui env); simpl;
        (split; [reflexivity | split; [reflexivity|]]);
        rewrite <- ?app_assoc; eexists; reflexivity.
    + destruct (env_ui env); simpl;
        (split; [reflexivity | split; [reflexivity|]]);
        rewrite <- ?app_assoc; eexists; reflexivity.
  - destruct (env_ui env); simpl;
      (split; [reflexivity | split; [reflexivity|]]);
      rewrite <- ?app_assoc; eexists; reflexivity.
Qed.

(** [onDidReceiveSettings] in closed form: the title is chosen from the
    automation name and the credential, the request from the credential and
    the automation id. *)
Lemma onDidReceiveSettings_unfold
    (env : Env) (a : string) (settings : AutomationSettings) (s : State) :
  onDidReceiveSettings env a settings s =
  let title :=
    if truthy (automationName settings) then the (automationName settings)
    else if truthy (storedCredential env s) then "Select" +:+ nl +:+ "Automation"
    else "Configure" +:+ nl +:+ "Automation" in
  let s1 := logged (SetTitle a title) (with_titles (<[a := title]> (titles s)) s) in
  if truthy (storedCredential env s) && negb (truthy (automationId settings))
  then validateApiKeyAndFetchAutomations env (the (storedCredential env s)) s1
  else (Normal tt, s1).
Proof.
  unfold onDidReceiveSettings, bind.
  destruct (truthy (automationName settings)).
  - unfold setTitle, modify. rewrite getApiKey_stored.
    change (storedCredential env (logged ?e (with_titles ?m s)))
      with (storedCredential env s).
    destruct (truthy (storedCredential env s) && negb (truthy (automationId settings)));
      reflexivity.
  - rewrite getApiKey_stored.
    destruct (truthy (storedCredential env s)) eqn:Hc;
      unfold setTitle, modify; rewrite getApiKey_stored;
      change (storedCredential env (logged ?e (with_titles ?m s)))
        with (storedCredential env s); rewrite Hc;
      destruct (negb (truthy (automationId settings))); reflexivity.
Qed.

(** The claim C2 has the appear event show "Select Automation" when a
    credential is stored and no automation is chosen.  [onWillAppear] does
    not look at the credential: it shows "Configure Automation" and sends
    no request. *)
Lemma onWillAppear_ignores_credential :
  let s := initial {["apiKey" := "abcdefghijkl"]} in
  let env := calm (Responds {| status := 200; body := BodyJson None |}) in
  truthy (storedCredential env s) = true ∧
  titles (exec (onWillAppear "button" noSettings) s) !! "button"
    = Some ("Configure" +:+ nl +:+ "Automation") ∧
  titles (exec (onWillAppear "button" noSettings) s) !! "button"
    ≠ Some ("Select" +:+ nl +:+ "Automation") ∧
  trace (exec (onWillAppear "button" noSettings) s)
    = [SetTitle "button" ("Configure" +:+ nl +:+ "Automation")] ∧
  titles (exec (onDidReceiveSettings env "button" noSettings) s) !! "button"
    = Some ("Select" +:+ nl +:+ "Automation").
Proof. vm_compute. repeat split; congruence. Qed.

(** C2, amended: with a credential stored and neither an automation id nor
    an automation name in the settings, a settings-changed event sets the
    title "Select Automation" and then requests the catalogue with that
    credential; the title is still shown when the handler ends.  An appear
    event in the same situation sets the title "Configure Automation" and
    does nothing else. *)
Theorem unconfigured_with_credential
    (env : Env) (a : string) (settings : AutomationSettings) (s : State) :
  truthy (storedCredential env s) = true →
  truthy (automationId settings) = false →
  truthy (automationName settings) = false →
  (let s' := exec (onDidReceiveSettings env a settings) s in
   titles s' !! a = Some ("Select" +:+ nl +:+ "Automation") ∧
   ∃ rest, trace s' = trace s ++
             SetTitle a ("Select" +:+ nl +:+ "Automation")
             :: HttpGet automationsUrl (the (storedCredential env s)) :: rest) ∧
  (let s' := exec (onWillAppear a settings) s in
   titles s' !! a = Some ("Configure" +:+ nl +:+ "Automation") ∧
   trace s' = trace s ++ [SetTitle a ("Configure" +:+ nl +:+ "Automation")]).
Proof.
  intros Hc Hi Hn. split.
  - unfold exec. rewrite onDidReceiveSettings_unfold, Hn, Hi, Hc. cbn [andb negb].
    cbv zeta.
    match goal with
    | |- context [validateApiKeyAndFetchAutomations env ?k ?s0] =>
        destruct (validateApiKeyAndFetchAutomations_display env k s0) as (Ht & _ & rest & Htr)
    end.
    unfold exec in Ht, Htr. rewrite Ht, Htr. split.
    + simpl. apply lookup_insert_eq.
    + exists rest. simpl. rewrite <- app_assoc. reflexivity.
  - unfold onWillAppear. rewrite Hn. simpl. split; [apply lookup_insert_eq | reflexivity].
Qed.

Lemma unconfigured_with_credential_witness :
  let s := initial {["apiKey" := "abcdefghijkl"]} in
  let env := calm (Responds {| status := 200; body := BodyJson None |}) in
  titles (exec (onDidReceiveSettings env "button" noSettings) s) !! "button"
    = Some ("Select" +:+ nl +:+ "Automation").
Proof.
  intros s env.
  apply (unconfigured_with_credential env "button" noSettings s); reflexivity.
Defined.

(** ** Settings with only one of the two automation fields *)

Lemma onKeyUp_stored (env : Env) (a : string) (settings : AutomationSettings) (s : State) :
  onKeyUp env a settings s =
  tryCatch
    (if negb (truthy (storedCredential env s)) then
       setTitle a ("Missing" +:+ nl +:+ "API Key");;
       showAlert a;;
       timeout <- setTimeout a ("Configure" +:+ nl +:+ "Automation") None 3000;;
       handlesAdd timeout
     else if negb (truthy (automationId settings)) || negb (truthy (automationName settings))
     then
       setTitle a ("No Automation" +:+ nl +:+ "Selected");;
       showAlert a;;
       timeout <- setTimeout a ("Select" +:+ nl +:+ "Automation") None 3000;;
       handlesAdd timeout
     else
       setTitle a ("Triggering" +:+ nl +:+ the (automationName settings));;
       triggerResponse <-
         fetch (HttpPost triggerUrl (the (storedCredential env s)) a
                  (the (automationId settings)))
               (env_fetch env);;
       if ok triggerResponse then
         setTitle a ("Triggered!" +:+ nl +:+ the (automationName settings));;
         setImage a keyPressedImage;;
         timeout <- setTimeout a (the (automationName settings)) (Some keyImage) 2000;;
         handlesAdd timeout
       else throw (ErrorObject "Failed to trigger automation"))
    (λ error,
       setTitle a ("Error" +:+ nl +:+ errorMessage error);;
       showAlert a;;
       timeout <- setTimeout a
         (orElse (automationName settings) ("Configure" +:+ nl +:+ "Automation")) None 3000;;
       handlesAdd timeout)
    s.
Proof.
  unfold onKeyUp, tryCatch. unfold bind at 1. rewrite getApiKey_stored. reflexivity.
Qed.

(** The claim C8 has every handler treat a name without an id as "not
    configured".  On appear the name alone is shown as the title, as for a
    configured button, while settings with neither field give "Configure
    Automation". *)
Lemma onWillAppear_name_without_id :
  let settings := {| automationId := None; automationName := Some "Lights" |} in
  titles (exec (onWillAppear "button" settings) (initial ∅)) !! "button" = Some "Lights" ∧
  titles (exec (onWillAppear "button" noSettings) (initial ∅)) !! "button"
    = Some ("Configure" +:+ nl +:+ "Automation") ∧
  exec (onWillAppear "button" settings) (initial ∅)
    ≠ exec (onWillAppear "button" noSettings) (initial ∅).
Proof.
  vm_compute. repeat split. intros H.
  injection H. intros. discriminate.
Qed.

(** C8, amended: on key-up, settings that lack the automation id or the
    automation name are handled exactly as settings with neither.  On
    appear and on settings-changed the title is chosen from the automation
    name alone: without a name the title is the one for settings with
    neither field, whatever the id; with a name the title is the name,
    whatever the id. *)
Theorem partial_settings
    (env : Env) (a : string) (settings : AutomationSettings) (s : State) :
  (truthy (automationId settings) = false ∨ truthy (automationName settings) = false →
   onKeyUp env a settings s = onKeyUp env a noSettings s) ∧
  (truthy (automationName settings) = false →
   onWillAppear a settings s = onWillAppear a noSettings s ∧
   titles (exec (onDidReceiveSettings env a settings) s)
     = titles (exec (onDidReceiveSettings env a noSettings) s)) ∧
  (truthy (automationName settings) = true →
   titles (exec (onWillAppear a settings) s) !! a = Some (the (automationName settings)) ∧
   titles (exec (onDidReceiveSettings env a settings) s) !! a
     = Some (the (automationName settings))).
Proof.
  assert (Hd : ∀ st, titles (exec (onDidReceiveSettings env a st) s)
     = <[a := if truthy (automationName st) then the (automationName st)
              else if truthy (storedCredential env s)
                   then "Select" +:+ nl +:+ "Automation"
                   else "Configure" +:+ nl +:+ "Automation"]> (titles s)).
  { intros st. unfold exec. rewrite onDidReceiveSettings_unfold. cbv zeta.
    destruct (truthy (storedCredential env s) && negb (truthy (automationId st)));
      [|reflexivity].
    match goal with
    | |- context [validateApiKeyAndFetchAutomations env ?k ?s0] =>
        destruct (validateApiKeyAndFetchAutomations_display env k s0) as (Ht & _)
    end.
    unfold exec in Ht. rewrite Ht. reflexivity. }
  split; [|split].
  - intros H. rewrite !onKeyUp_stored. unfold tryCatch.
    destruct (negb (truthy (storedCredential env s))); [reflexivity|].
    assert (Hp : negb (truthy (automationId settings))
                 || negb (truthy (automationName settings)) = true).
    { destruct H as [H|H]; rewrite H; simpl; [reflexivity | apply orb_true_r]. }
    rewrite Hp. reflexivity.
  - intros Hn. split.
    + unfold onWillAppear. rewrite Hn. reflexivity.
    + rewrite !Hd, Hn. reflexivity.
  - intros Hn. split.
    + unfold onWillAppear. rewrite Hn. simpl. apply lookup_insert_eq.
    + rewrite Hd, Hn. apply lookup_insert_eq.
Qed.

Lemma partial_settings_witness :
  onKeyUp (calm (Rejects (NonError JsNull))) "button"
    {| automationId := Some "a1"; automationName := None |}
    (initial {["apiKey" := "abcdefghijkl"]})
  = onKeyUp (calm (Rejects (NonError JsNull))) "button" noSettings
      (initial {["apiKey" := "abcdefghijkl"]}).
Proof.
  apply (partial_settings (calm (Rejects (NonError JsNull))) "button"
           {| automationId := Some "a1"; automationName := None |}
           (initial {["apiKey" := "abcdefghijkl"]})).
  right. reflexivity.
Defined.

(** ** The timer queue and the set of handles *)

Lemma elem_of_enqueue (t x : Timer) (q : list Timer) :
  x ∈ enqueue t q ↔ x = t ∨ x ∈ q.
Proof.
  induction q as [|y q IH]; simpl.
  - rewrite elem_of_cons, elem_of_nil. tauto.
  - destruct (due y <=? due t)%N.
    + rewrite !elem_of_cons, IH. tauto.
    + rewrite !elem_of_cons. tauto.
Qed.

Lemma enqueue_sorted (t : Timer) (q : list Timer) :
  StronglySorted byDue q → StronglySorted byDue (enqueue t q).
Proof.
  induction q as [|y q IH]; simpl; intros Hs.
  - repeat constructor.
  - apply StronglySorted_cons in Hs as [Hy Hq].
    destruct (N.leb_spec (due y) (due t)) as [Hle|Hlt].
    + apply StronglySorted_cons. split; [|auto].
      rewrite Forall_forall in *. intros x Hx.
      apply elem_of_enqueue in Hx as [->|Hx]; [exact Hle | auto].
    + apply StronglySorted_cons. split.
      * rewrite Forall_forall in *. intros x Hx.
        apply elem_of_cons in Hx as [->|Hx]; unfold byDue in *; [lia|].
        specialize (Hy x Hx). lia.
      * apply StronglySorted_cons. auto.
Qed.

Lemma filter_sorted (P : Timer → Prop) `{!∀ t, Decision (P t)} (q : list Timer) :
  StronglySorted byDue q → StronglySorted byDue (filter P q).
Proof.
  induction q as [|y q IH]; intros Hs; [constructor|].
  apply StronglySorted_cons in Hs as [Hy Hq].
  rewrite filter_cons. destruct (decide (P y)); [|auto].
  apply StronglySorted_cons. split; [|auto].
  rewrite Forall_forall in *. intros x Hx.
  apply list_elem_of_filter in Hx as [_ Hx]. auto.
Qed.

(** A timer enqueued with due time [due t] is the last of those that fire
    up to that time. *)
Lemma enqueue_fires_last (t : Timer) (q : list Timer) :
  StronglySorted byDue q →
  filter (λ x, (due x ≤ due t)%N) (enqueue t q)
  = filter (λ x, (due x ≤ due t)%N) q ++ [t].
Proof.
  induction q as [|y q IH]; simpl; intros Hs.
  - rewrite filter_cons_True by lia. reflexivity.
  - apply StronglySorted_cons in Hs as [Hy Hq].
    destruct (N.leb_spec (due y) (due t)) as [Hle|Hlt].
    + rewrite !filter_cons_True by assumption. rewrite IH by assumption. reflexivity.
    + rewrite (filter_cons_True _ t) by lia.
      assert (Hnone : filter (λ x, (due x ≤ due t)%N) (y :: q) = []).
      { apply elem_of_nil_inv. intros x Hx.
        apply list_elem_of_filter in Hx as [Hd Hx].
        apply elem_of_cons in Hx as [->|Hx]; [lia|].
        rewrite Forall_forall in Hy. specialize (Hy x Hx). unfold byDue in Hy. lia. }
      rewrite Hnone. reflexivity.
Qed.

Lemma elem_of_cleared (hs : list nat) (q : list Timer) (t : Timer) :
  t ∈ foldr clearTimeout q hs ↔ t ∈ q ∧ handle t ∉ hs.
Proof.
  induction hs as [|h hs IH]; simpl.
  - rewrite elem_of_nil. tauto.
  - unfold clearTimeout at 1. rewrite list_elem_of_filter, IH, not_elem_of_cons. tauto.
Qed.

Lemma quiet_keeps {A} (m : Js A) : quiet m → keeps m.
Proof.
  intros Hq s [H1 H2 H3 H4]. destruct (Hq s) as (Et & Eh & En & _).
  split; rewrite ?Et, ?Eh, ?En; assumption.
Qed.

Lemma keeps_bind {A B} (m : Js A) (k : A → Js B) :
  keeps m → (∀ x, keeps (k x)) → keeps (bind m k).
Proof.
  intros Hm Hk s Hs. unfold bind. specialize (Hm s Hs).
  destruct (m s) as [[x|e] s']; simpl in *; [apply Hk|]; assumption.
Qed.

Lemma keeps_tryCatch {A} (body : Js A) (handler : Thrown → Js A) :
  keeps body → (∀ e, keeps (handler e)) → keeps (tryCatch body handler).
Proof.
  intros Hm Hk s Hs. unfold tryCatch. specialize (Hm s Hs).
  destruct (body s) as [[x|e] s']; simpl in *; [|apply Hk]; assumption.
Qed.

Lemma keeps_ret {A} (x : A) : keeps (ret x).
Proof. intros s Hs. exact Hs. Qed.

Lemma keeps_throw {A} (e : Thrown) : keeps (throw (A := A) e).
Proof. intros s Hs. exact Hs. Qed.

Lemma keeps_setTitle a t : keeps (setTitle a t).
Proof. apply quiet_keeps. intros s. repeat split. Qed.

Lemma keeps_setImage a i : keeps (setImage a i).
Proof. apply quiet_keeps. intros s. repeat split. Qed.

Lemma keeps_showAlert a : keeps (showAlert a).
Proof. apply quiet_keeps. intros s. repeat split. Qed.

Lemma keeps_sendToPropertyInspector env p : keeps (sendToPropertyInspector env p).
Proof.
  apply quiet_keeps. intros s. unfold sendToPropertyInspector.
  destruct (env_ui env); repeat split.
Qed.

Lemma keeps_getGlobalSettings env : keeps (getGlobalSettings env).
Proof.
  apply quiet_keeps. intros s. unfold getGlobalSettings.
  destruct (env_getGlobal env); repeat split.
Qed.

Lemma keeps_setGlobalSettings env g : keeps (setGlobalSettings env g).
Proof.
  apply quiet_keeps. intros s. unfold setGlobalSettings.
  destruct (env_setGlobal env); repeat split.
Qed.

Lemma keeps_fetch request answer : keeps (fetch request answer).
Proof.
  apply quiet_keeps. intros s. unfold fetch, bind, modify.
  destruct answer; repeat split.
Qed.

Lemma keeps_automationsOf r : keeps (automationsOf r).
Proof. unfold automationsOf. destruct (body r); [apply keeps_ret | apply keeps_throw]. Qed.

Lemma keeps_messageOf e : keeps (messageOf e).
Proof.
  unfold messageOf. destruct e as [m|[]]; first [apply keeps_ret | apply keeps_throw].
Qed.

(** [setTimeout] followed by the registration of its handle. *)
Lemma keeps_schedule a title image delay :
  keeps (bind (setTimeout a title image delay) handlesAdd).
Proof.
  intros s [H1 H2 H3 H4]. unfold bind, setTimeout, handlesAdd, modify. simpl.
  split; simpl.
  - intros t Ht. apply elem_of_enqueue in Ht as [->|Ht]; simpl.
    + apply elem_of_union_l, elem_of_singleton. reflexivity.
    + apply elem_of_union_r. auto.
  - intros t Ht. apply elem_of_enqueue in Ht as [->|Ht]; simpl; [lia|].
    specialize (H2 t Ht). lia.
  - intros t t' Ht Ht' E.
    apply elem_of_enqueue in Ht as [->|Ht]; apply elem_of_enqueue in Ht' as [->|Ht'];
      simpl in *; auto.
    + specialize (H2 t' Ht'). lia.
    + specialize (H2 t Ht). lia.
  - apply enqueue_sorted. assumption.
Qed.

Lemma keeps_cleanupTimeouts : keeps cleanupTimeouts.
Proof.
  intros s [H1 H2 H3 H4]. unfold cleanupTimeouts, modify. simpl.
  assert (Hnone : foldr clearTimeout (timers s) (elements (timeoutHandles s)) = []).
  { apply elem_of_nil_inv. intros t Ht. apply elem_of_cleared in Ht as [Ht Hh].
    apply Hh, elem_of_elements. auto. }
  rewrite Hnone. split; simpl; intros; try constructor;
    match goal with H : _ ∈ [] |- _ => apply elem_of_nil in H; destruct H end.
Qed.

Ltac keeps_step :=
  match goal with
  | |- keeps (bind (setTimeout _ _ _ _) _) => apply keeps_schedule
  | |- keeps (bind _ _) => apply keeps_bind; [|intros ?]
  | |- keeps (tryCatch _ _) => apply keeps_tryCatch; [|intros ?]
  | |- keeps (ret _) => apply keeps_ret
  | |- keeps (throw _) => apply keeps_throw
  | |- keeps (setTitle _ _) => apply keeps_setTitle
  | |- keeps (setImage _ _) => apply keeps_setImage
  | |- keeps (showAlert _) => apply keeps_showAlert
  | |- keeps (sendToPropertyInspector _ _) => apply keeps_sendToPropertyInspector
  | |- keeps (getGlobalSettings _) => apply keeps_getGlobalSettings
  | |- keeps (setGlobalSettings _ _) => apply keeps_setGlobalSettings
  | |- keeps (fetch _ _) => apply keeps_fetch
  | |- keeps (automationsOf _) => apply keeps_automationsOf
  | |- keeps (messageOf _) => apply keeps_messageOf
  | |- keeps (if ?b then _ else _) => destruct b
  | |- keeps (let _ := _ in _) => cbv zeta
  end.

Ltac keeps_all := repeat keeps_step.

Lemma keeps_getApiKey env : keeps (getApiKey env).
Proof. unfold getApiKey. keeps_all. Qed.

Lemma keeps_saveApiKey env k : keeps (saveApiKey env k).
Proof. unfold saveApiKey. keeps_all. Qed.

Lemma keeps_onWillAppear a st : keeps (onWillAppear a st).
Proof. unfold onWillAppear. keeps_all. Qed.

Lemma keeps_validateApiKeyAndFetchAutomations env k :
  keeps (validateApiKeyAndFetchAutomations env k).
Proof. unfold validateApiKeyAndFetchAutomations. keeps_all. Qed.

Lemma keeps_onDidReceiveSettings env a st : keeps (onDidReceiveSettings env a st).
Proof.
  unfold onDidReceiveSettings.
  keeps_all; first [apply keeps_getApiKey | apply keeps_validateApiKeyAndFetchAutomations].
Qed.

Lemma keeps_onKeyUp env a st : keeps (onKeyUp env a st).
Proof. unfold onKeyUp. keeps_all; apply keeps_getApiKey. Qed.

Lemma keeps_handleFetchAutomations env k r : keeps (handleFetchAutomations env k r).
Proof. unfold handleFetchAutomations. keeps_all. Qed.

Lemma keeps_handleTestApiKey env k : keeps (handleTestApiKey env k).
Proof. unfold handleTestApiKey. keeps_all; apply keeps_handleFetchAutomations. Qed.

Lemma keeps_handleGetApiKey env : keeps (handleGetApiKey env).
Proof. unfold handleGetApiKey. keeps_all; apply keeps_getApiKey. Qed.

Lemma keeps_onSendToPlugin env p : keeps (onSendToPlugin env p).
Proof.
  unfold onSendToPlugin.
  keeps_all;
    first [apply keeps_saveApiKey | apply keeps_handleTestApiKey
          | apply keeps_handleFetchAutomations | apply keeps_handleGetApiKey].
Qed.

(** The callbacks that fire change the display and remove their own
    handles; the queue itself is not touched by them. *)
Lemma fired_callbacks (fired : list Timer) (s : State) :
  let s' := foldl (λ s t, exec (callback t) s) s fired in
  timers s' = timers s ∧ nextHandle s' = nextHandle s ∧ now s' = now s ∧
  globals s' = globals s ∧
  ∀ h, h ∈ timeoutHandles s' ↔ h ∈ timeoutHandles s ∧ h ∉ handle <$> fired.
Proof.
  revert s. induction fired as [|t fired IH]; intros s; simpl.
  - split; [|split; [|split; [|split]]]; try reflexivity.
    intros h. split; [intros Hh; split; [exact Hh | apply not_elem_of_nil] | tauto].
  - destruct (IH (exec (callback t) s)) as (Et & En & Eo & Eg & Eh).
    rewrite Et, En, Eo, Eg.
    assert (Hc : timers (exec (callback t) s) = timers s ∧
                 nextHandle (exec (callback t) s) = nextHandle s ∧
                 now (exec (callback t) s) = now s ∧
                 globals (exec (callback t) s) = globals s ∧
                 timeoutHandles (exec (callback t) s) = timeoutHandles s ∖ {[handle t]}).
    { js_unfold callback. destruct (cb_image t); repeat split. }
    destruct Hc as (Ct & Cn & Co & Cg & Ch).
    split; [|split; [|split; [|split]]]; try assumption.
    intros h. rewrite Eh, Ch, elem_of_difference, not_elem_of_singleton.
    rewrite ?fmap_cons, not_elem_of_cons. tauto.
Qed.

Lemma elapse_timers (d : N) (s : State) :
  timers (elapse d s) = filter (λ t, ¬ (due t ≤ now s + d)%N) (timers s) ∧
  now (elapse d s) = (now s + d)%N.
Proof.
  unfold elapse. cbv zeta.
  match goal with
  | |- context [foldl ?f ?s0 ?l] => destruct (fired_callbacks l s0) as (Et & _ & Eo & _)
  end.
  cbv zeta in Et, Eo. rewrite Et, Eo. split; reflexivity.
Qed.

Lemma wellFormed_elapse (d : N) (s : State) : wellFormed s → wellFormed (elapse d s).
Proof.
  intros [H1 H2 H3 H4].
  pose proof (elapse_timers d s) as [Et _].
  unfold elapse in *. cbv zeta in *.
  match goal with
  | |- context [foldl ?f ?s0 ?l] =>
      destruct (fired_callbacks l s0) as (_ & En & _ & _ & Eh)
  end.
  cbv zeta in En, Eh.
  split; rewrite ?Et, ?En; simpl.
  - intros t Ht. apply list_elem_of_filter in Ht as [Hlate Ht].
    apply Eh. simpl. split; [auto|].
    intros Hin. apply list_elem_of_fmap in Hin as (t' & E & Ht').
    apply list_elem_of_filter in Ht' as [Hdue Ht'].
    assert (t = t') by auto. subst t'. contradiction.
  - intros t Ht. apply list_elem_of_filter in Ht as [_ Ht]. auto.
  - intros t t' Ht Ht'.
    apply list_elem_of_filter in Ht as [_ Ht].
    apply list_elem_of_filter in Ht' as [_ Ht']. auto.
  - apply filter_sorted. assumption.
Qed.

Lemma wellFormed_initial (g : gmap string string) : wellFormed (initial g).
Proof.
  split; simpl; intros; try constructor;
    match goal with H : _ ∈ [] |- _ => apply elem_of_nil in H; destruct H end.
Qed.

Lemma wellFormed_step (s : State) (e : Event) : wellFormed s → wellFormed (step s e).
Proof.
  intros Hs. destruct e; simpl; unfold exec.
  - apply keeps_onWillAppear, Hs.
  - apply keeps_onDidReceiveSettings, Hs.
  - exact Hs.
  - apply keeps_onKeyUp, Hs.
  - apply keeps_cleanupTimeouts, Hs.
  - apply keeps_onSendToPlugin, Hs.
  - apply wellFormed_elapse, Hs.
Qed.

Lemma wellFormed_run (events : list Event) (s : State) :
  wellFormed s → wellFormed (run events s).
Proof.
  revert s. induction events as [|e events IH]; intros s Hs; simpl; [exact Hs|].
  apply IH, wellFormed_step, Hs.
Qed.

(** ** Disappearing *)

Lemma cleanup_empties (s : State) :
  wellFormed s → timers (exec onWillDisappear s) = [].
Proof.
  intros Hs. unfold onWillDisappear, cleanupTimeouts, exec, modify. simpl.
  apply elem_of_nil_inv. intros t Ht. apply elem_of_cleared in Ht as [Ht Hh].
  apply Hh, elem_of_elements, (wf_tracked s Hs), Ht.
Qed.

Lemma elapse_idle (d : N) (s : State) :
  timers s = [] → elapse d s = with_now (now s + d) s.
Proof.
  intros H. unfold elapse. rewrite H. simpl.
  unfold with_now, with_timers. simpl. rewrite H. reflexivity.
Qed.

(** C6: after a disappear event no reset is pending, whatever happened
    before: however far the clock is then advanced, in one step or in
    several, no timer fires, so titles and images stay as they are and
    nothing further is done to the device. *)
Theorem disappear_cancels_resets
    (g : gmap string string) (events : list Event) (delays : list N) :
  let s := exec onWillDisappear (run events (initial g)) in
  let s' := run (Elapse <$> delays) s in
  timers s = [] ∧ titles s' = titles s ∧ images s' = images s ∧ trace s' = trace s.
Proof.
  cbv zeta.
  assert (He : timers (exec onWillDisappear (run events (initial g))) = []).
  { apply cleanup_empties, wellFormed_run, wellFormed_initial. }
  split; [exact He|].
  generalize dependent (exec onWillDisappear (run events (initial g))).
  induction delays as [|d delays IH]; intros s He; [simpl; auto|].
  change (run (Elapse <$> d :: delays) s) with (run (Elapse <$> delays) (elapse d s)).
  rewrite (elapse_idle d s He).
  destruct (IH (with_now (now s + d) s) He) as (Ht & Hi & Hr).
  rewrite Ht, Hi, Hr. auto.
Qed.

(** The resets that [disappear_cancels_resets] is about do fire when the
    button stays: a key-up without credential, then three seconds. *)
Example reset_fires_without_disappear :
  let env := calm (Rejects (NonError JsNull)) in
  let s := run [KeyUp env "button" noSettings] (initial ∅) in
  length (timers s) = 1 ∧
  titles s !! "button" = Some ("Missing" +:+ nl +:+ "API Key") ∧
  titles (run [Elapse 3000] s) !! "button" = Some ("Configure" +:+ nl +:+ "Automation") ∧
  titles (run [WillDisappear; Elapse 3000] s) !! "button"
    = Some ("Missing" +:+ nl +:+ "API Key").
Proof. vm_compute. auto. Qed.

(** ** Scheduled resets *)

(** A reset scheduled with [delay] stays in the queue until [delay] has
    passed; at that moment it fires after every other timer that is due,
    so its title, and its image if it has one, are what the button shows. *)
Lemma scheduled_reset_fires
    (a title : string) (image : option string) (delay : N) (s : State) :
  wellFormed s →
  let s1 := exec (bind (setTimeout a title image delay) handlesAdd) s in
  titles (elapse delay s1) !! a = Some title ∧
  (∀ i, image = Some i → images (elapse delay s1) !! a = Some i) ∧
  (∀ d, (d < delay)%N →
     ∃ t, t ∈ timers (elapse d s1) ∧ cb_action t = a ∧ cb_title t = title ∧
          cb_image t = image ∧ due t = (now s + delay)%N).
Proof.
  intros Hs s1.
  set (t := {| handle := nextHandle s; due := (now s + delay)%N; cb_action := a;
               cb_title := title; cb_image := image |}).
  assert (Hq : timers s1 = enqueue t (timers s)) by reflexivity.
  assert (Hn : now s1 = now s) by reflexivity.
  assert (Hfire : ∃ s0, elapse delay s1 = exec (callback t) s0).
  { unfold elapse. cbv zeta. rewrite Hq, Hn.
    change (filter (λ x, (due x ≤ now s + delay)%N) (enqueue t (timers s)))
      with (filter (λ x, (due x ≤ due t)%N) (enqueue t (timers s))).
    rewrite (enqueue_fires_last t (timers s) (wf_sorted s Hs)), foldl_snoc.
    eexists. reflexivity. }
  destruct Hfire as [s0 ->].
  split; [|split].
  - js_unfold callback. destruct (cb_image t); simpl; apply lookup_insert_eq.
  - intros i Hi. js_unfold callback. change (cb_image t) with image. rewrite Hi.
    simpl. apply lookup_insert_eq.
  - intros d Hd. exists t. repeat split.
    destruct (elapse_timers d s1) as [-> _]. rewrite Hq, Hn.
    apply list_elem_of_filter. split; [simpl; lia|].
    apply elem_of_enqueue. left. reflexivity.
Qed.

(** ** Key-up without a credential *)

(** C9: when the store holds no credential (none, an empty one, or the
    store cannot be read), key-up sets the title "Missing API Key" and shows
    an alert, and does nothing else at once: no request is sent and the
    handler ends normally.  The reset stays pending for 3000 ms; when 3000
    ms have passed the title is "Configure Automation". *)
Theorem keyUp_without_credential
    (g : gmap string string) (events : list Event)
    (env : Env) (a : string) (settings : AutomationSettings) :
  let s := run events (initial g) in
  truthy (storedCredential env s) = false →
  let r := onKeyUp env a settings s in
  r.1 = Normal tt ∧
  trace r.2 = trace s ++ [SetTitle a ("Missing" +:+ nl +:+ "API Key"); ShowAlert a] ∧
  titles r.2 !! a = Some ("Missing" +:+ nl +:+ "API Key") ∧
  titles (elapse 3000 r.2) !! a = Some ("Configure" +:+ nl +:+ "Automation") ∧
  ∀ d, (d < 3000)%N →
    ∃ t, t ∈ timers (elapse d r.2) ∧ cb_action t = a ∧
         cb_title t = "Configure" +:+ nl +:+ "Automation" ∧ due t = (now s + 3000)%N.
Proof.
  intros s Hc r.
  assert (Hs : wellFormed s) by apply wellFormed_run, wellFormed_initial.
  set (mid := exec (setTitle a ("Missing" +:+ nl +:+ "API Key");; showAlert a) s).
  assert (Hmid : wellFormed mid).
  { apply (keeps_bind (setTitle a _) (λ _, showAlert a));
      [apply keeps_setTitle | intros _; apply keeps_showAlert | exact Hs]. }
  assert (Hr : r = (Normal tt,
                    exec (bind (setTimeout a ("Configure" +:+ nl +:+ "Automation") None 3000)
                               handlesAdd) mid)).
  { unfold r. rewrite onKeyUp_stored. unfold tryCatch. rewrite Hc. reflexivity. }
  rewrite Hr. cbn [fst snd].
  destruct (scheduled_reset_fires a ("Configure" +:+ nl +:+ "Automation") None 3000 mid Hmid)
    as (Ht & _ & Hp).
  split; [reflexivity|]. split; [simpl; rewrite <- app_assoc; reflexivity|].
  split; [simpl; apply lookup_insert_eq|]. split; [exact Ht|].
  intros d Hd. destruct (Hp d Hd) as (t & H1 & H2 & H3 & _ & H5). eauto.
Qed.

Lemma keyUp_without_credential_witness :
  let r := onKeyUp (calm (Rejects (NonError JsNull))) "button" noSettings (initial ∅) in
  r.1 = Normal tt ∧
  titles (elapse 3000 r.2) !! "button" = Some ("Configure" +:+ nl +:+ "Automation").
Proof.
  intros r.
  assert (Hc : truthy (storedCredential (calm (Rejects (NonError JsNull)))
                         (run [] (initial ∅))) = false) by reflexivity.
  destruct (keyUp_without_credential ∅ [] (calm (Rejects (NonError JsNull)))
              "button" noSettings Hc) as (H1 & _ & _ & H4 & _).
  split; [exact H1 | exact H4].
Defined.

(** ** Key-up with a credential and an automation *)

Lemma wellFormed_triggering env a settings s :
  wellFormed s → wellFormed (triggering env a settings s).
Proof.
  intros Hs. unfold triggering, exec.
  apply keeps_bind; [apply keeps_setTitle | intros _ | exact Hs].
  apply quiet_keeps. intros s0. repeat split.
Qed.

Lemma onKeyUp_success env a settings s r :
  truthy (storedCredential env s) = true →
  truthy (automationId settings) = true →
  truthy (automationName settings) = true →
  env_fetch env = Responds r → ok r = true →
  onKeyUp env a settings s =
  (Normal tt,
   exec (bind (setTimeout a (the (automationName settings)) (Some keyImage) 2000) handlesAdd)
        (exec (setTitle a ("Triggered!" +:+ nl +:+ the (automationName settings));;
               setImage a keyPressedImage)
              (triggering env a settings s))).
Proof.
  intros Hc Hi Hn Hf Hok. rewrite onKeyUp_stored. unfold tryCatch.
  rewrite Hc, Hi, Hn. cbn [negb orb]. unfold fetch. rewrite Hf.
  unfold bind, modify, ret, setTitle, setImage. cbn beta iota. rewrite Hok. reflexivity.
Qed.

Lemma onKeyUp_failure env a settings s e :
  truthy (storedCredential env s) = true →
  truthy (automationId settings) = true →
  truthy (automationName settings) = true →
  failure (env_fetch env) = Some e →
  onKeyUp env a settings s =
  (Normal tt,
   exec (bind (setTimeout a (the (automationName settings)) None 3000) handlesAdd)
        (exec (setTitle a ("Error" +:+ nl +:+ errorMessage e);; showAlert a)
              (triggering env a settings s))).
Proof.
  intros Hc Hi Hn Hf. rewrite onKeyUp_stored. unfold tryCatch.
  rewrite Hc, Hi, Hn. cbn [negb orb]. unfold fetch, orElse. rewrite Hn.
  unfold failure in Hf. destruct (env_fetch env) as [r|e'].
  - unfold bind, modify, ret, setTitle, setImage. cbn beta iota.
    destruct (ok r); [discriminate|]. injection Hf as <-. reflexivity.
  - injection Hf as <-. reflexivity.
Qed.

(** C1: on key-up with a credential stored and both automation fields
    set, the title "Triggering <name>" is set first and the trigger request
    is sent after it, whatever the answer will be.  If the answer is ok, the
    title becomes "Triggered! <name>" and the image the pressed asset, and
    the handler ends normally; the reset stays pending for 2000 ms, and
    when 2000 ms have passed the title is <name> and the image the default
    asset. *)
Theorem keyUp_triggers
    (g : gmap string string) (events : list Event)
    (env : Env) (a : string) (settings : AutomationSettings) :
  let s := run events (initial g) in
  let name := the (automationName settings) in
  truthy (storedCredential env s) = true →
  truthy (automationId settings) = true →
  truthy (automationName settings) = true →
  let r := onKeyUp env a settings s in
  (∃ rest, trace r.2 = trace s ++
     SetTitle a ("Triggering" +:+ nl +:+ name)
     :: HttpPost triggerUrl (the (storedCredential env s)) a (the (automationId settings))
     :: rest) ∧
  ∀ answer, env_fetch env = Responds answer → ok answer = true →
    r.1 = Normal tt ∧
    trace r.2 = trace s ++
      [SetTitle a ("Triggering" +:+ nl +:+ name);
       HttpPost triggerUrl (the (storedCredential env s)) a (the (automationId settings));
       SetTitle a ("Triggered!" +:+ nl +:+ name);
       SetImage a keyPressedImage] ∧
    titles r.2 !! a = Some ("Triggered!" +:+ nl +:+ name) ∧
    images r.2 !! a = Some keyPressedImage ∧
    titles (elapse 2000 r.2) !! a = Some name ∧
    images (elapse 2000 r.2) !! a = Some keyImage ∧
    ∀ d, (d < 2000)%N →
      ∃ t, t ∈ timers (elapse d r.2) ∧ cb_action t = a ∧ cb_title t = name ∧
           cb_image t = Some keyImage ∧ due t = (now s + 2000)%N.
Proof.
  intros s name Hc Hi Hn r.
  assert (Hs : wellFormed s) by apply wellFormed_run, wellFormed_initial.
  pose proof (wellFormed_triggering env a settings s Hs) as Ht.
  split.
  - destruct (failure (env_fetch env)) as [e|] eqn:Hf.
    + unfold r. rewrite (onKeyUp_failure env a settings s e Hc Hi Hn Hf).
      eexists. simpl. rewrite <- !app_assoc. reflexivity.
    + unfold failure in Hf. destruct (env_fetch env) as [answer|] eqn:Ha; [|discriminate].
      destruct (ok answer) eqn:Hok; [|discriminate].
      unfold r. rewrite (onKeyUp_success env a settings s answer Hc Hi Hn Ha Hok).
      eexists. simpl. rewrite <- !app_assoc. reflexivity.
  - intros answer Ha Hok.
    unfold r. rewrite (onKeyUp_success env a settings s answer Hc Hi Hn Ha Hok).
    cbn [fst snd].
    set (mid := exec (setTitle a ("Triggered!" +:+ nl +:+ the (automationName settings));;
                      setImage a keyPressedImage) (triggering env a settings s)).
    assert (Hmid : wellFormed mid).
    { apply (keeps_bind (setTitle a _) (λ _, setImage a keyPressedImage));
        [apply keeps_setTitle | intros _; apply keeps_setImage | exact Ht]. }
    destruct (scheduled_reset_fires a name (Some keyImage) 2000 mid Hmid) as (H1 & H2 & H3).
    split; [reflexivity|]. split; [simpl; rewrite <- !app_assoc; reflexivity|].
    split; [simpl; apply lookup_insert_eq|]. split; [simpl; apply lookup_insert_eq|].
    split; [exact H1|]. split; [apply H2; reflexivity|].
    intros d Hd. destruct (H3 d Hd) as (t & ? & ? & ? & ? & ?). exists t. auto.
Qed.

Lemma keyUp_triggers_witness :
  let settings := {| automationId := Some "a1"; automationName := Some "Lights" |} in
  let env := calm (Responds {| status := 200; body := BodyJson None |}) in
  let r := onKeyUp env "button" settings (initial {["apiKey" := "abcdefghijkl"]}) in
  titles r.2 !! "button" = Some ("Triggered!" +:+ nl +:+ "Lights") ∧
  titles (elapse 2000 r.2) !! "button" = Some "Lights" ∧
  images (elapse 2000 r.2) !! "button" = Some keyImage.
Proof.
  intros settings env r.
  assert (Hc : truthy (storedCredential env
                         (run [] (initial {["apiKey" := "abcdefghijkl"]}))) = true)
    by reflexivity.
  assert (Hi : truthy (automationId settings) = true) by reflexivity.
  assert (Hn : truthy (automationName settings) = true) by reflexivity.
  destruct (keyUp_triggers {["apiKey" := "abcdefghijkl"]} [] env "button" settings
              Hc Hi Hn) as [_ H].
  destruct (H {| status := 200; body := BodyJson None |} eq_refl eq_refl)
    as (_ & _ & H3 & _ & H5 & H6 & _).
  split; [exact H3 | split; [exact H5 | exact H6]].
Defined.

(** ** Key-up when the trigger request fails *)

Lemma append_cons (c : Ascii.ascii) (s t : string) :
  String c s +:+ t = String c (s +:+ t).
Proof. reflexivity. Qed.

Lemma prefix_spec (s1 s2 : string) :
  String.prefix s1 s2 = true ↔ ∃ post, s2 = s1 +:+ post.
Proof.
  revert s2. induction s1 as [|c s1 IH]; intros s2.
  - destruct s2; simpl; split; eauto.
  - destruct s2 as [|c2 s2]; simpl.
    + split; [discriminate | intros [post H]; discriminate].
    + destruct (Ascii.ascii_dec c c2) as [->|Hne].
      * rewrite IH. split; intros [post H]; exists post;
          rewrite append_cons in *; congruence.
      * split; [discriminate | intros [post H]; rewrite append_cons in H; congruence].
Qed.

Lemma includes_spec (needle hay : string) :
  includes needle hay = true ↔ contains needle hay.
Proof.
  unfold contains. induction hay as [|c hay IH].
  - cbn [includes]. rewrite orb_false_r, prefix_spec. split.
    + intros [post H]. exists EmptyString, post. exact H.
    + intros (pre & post & H). destruct pre; [eauto|discriminate].
  - cbn [includes]. rewrite orb_true_iff, prefix_spec, IH. split.
    + intros [[post H]|(pre & post & H)].
      * exists EmptyString, post. exact H.
      * exists (String c pre), post. rewrite append_cons. congruence.
    + intros (pre & post & H). destruct pre as [|c' pre].
      * left. exists post. exact H.
      * right. exists pre, post. rewrite append_cons in H. congruence.
Qed.

(** The claim C4 gives every failure one of the labels "API Error" and
    "Failed".  A thrown value that is not an [Error] object gets a third
    label, "Error", also when its text contains "API". *)
Lemma keyUp_failure_third_label :
  let settings := {| automationId := Some "a1"; automationName := Some "Lights" |} in
  let env := calm (Rejects (NonError (JsString "API quota exceeded"))) in
  let r := onKeyUp env "button" settings (initial {["apiKey" := "abcdefghijkl"]}) in
  titles r.2 !! "button" = Some ("Error" +:+ nl +:+ "Error") ∧
  titles r.2 !! "button" ≠ Some ("Error" +:+ nl +:+ "API Error") ∧
  titles r.2 !! "button" ≠ Some ("Error" +:+ nl +:+ "Failed").
Proof. vm_compute. repeat split; discriminate. Qed.

(** C4, amended: when the trigger request of a key-up fails (it is
    rejected with a thrown value, or its answer is not ok), the handler ends
    normally with an alert and with a title that is one of three fixed
    texts: "Error" followed by "API Error" when the thrown value is an
    [Error] whose message contains "API", by "Failed" when it is an [Error]
    whose message does not, and by "Error" when it is not an [Error]
    object.  No other text reaches the title.  When 3000 ms have passed the
    title is the automation name. *)
Theorem keyUp_failure_label
    (g : gmap string string) (events : list Event)
    (env : Env) (a : string) (settings : AutomationSettings) (e : Thrown) :
  let s := run events (initial g) in
  let name := the (automationName settings) in
  truthy (storedCredential env s) = true →
  truthy (automationId settings) = true →
  truthy (automationName settings) = true →
  failure (env_fetch env) = Some e →
  let r := onKeyUp env a settings s in
  r.1 = Normal tt ∧
  match e with
  | ErrorObject message =>
      (contains "API" message →
       titles r.2 !! a = Some ("Error" +:+ nl +:+ "API Error")) ∧
      (¬ contains "API" message →
       titles r.2 !! a = Some ("Error" +:+ nl +:+ "Failed"))
  | NonError _ => titles r.2 !! a = Some ("Error" +:+ nl +:+ "Error")
  end ∧
  (∃ label, label ∈ ["API Error"; "Failed"; "Error"] ∧
     titles r.2 !! a = Some ("Error" +:+ nl +:+ label) ∧
     trace r.2 = trace s ++
       [SetTitle a ("Triggering" +:+ nl +:+ name);
        HttpPost triggerUrl (the (storedCredential env s)) a (the (automationId settings));
        SetTitle a ("Error" +:+ nl +:+ label);
        ShowAlert a]) ∧
  titles (elapse 3000 r.2) !! a = Some name.
Proof.
  intros s name Hc Hi Hn Hf r. subst name.
  assert (Hs : wellFormed s) by apply wellFormed_run, wellFormed_initial.
  pose proof (wellFormed_triggering env a settings s Hs) as Ht.
  unfold r. rewrite (onKeyUp_failure env a settings s e Hc Hi Hn Hf). cbn [fst snd].
  set (mid := exec (setTitle a ("Error" +:+ nl +:+ errorMessage e);; showAlert a)
                   (triggering env a settings s)).
  assert (Hmid : wellFormed mid).
  { apply (keeps_bind (setTitle a _) (λ _, showAlert a));
      [apply keeps_setTitle | intros _; apply keeps_showAlert | exact Ht]. }
  assert (Htitle : titles (exec (bind (setTimeout a (the (automationName settings)) None 3000)
                                  handlesAdd) mid) !! a
                   = Some ("Error" +:+ nl +:+ errorMessage e)).
  { simpl. apply lookup_insert_eq. }
  destruct (scheduled_reset_fires a (the (automationName settings)) None 3000 mid Hmid)
    as (H1 & _ & _).
  split; [reflexivity|]. split; [|split; [|exact H1]].
  - destruct e as [message|v]; [|exact Htitle]. split; intros Hm; rewrite Htitle.
    + apply includes_spec in Hm. simpl. rewrite Hm. reflexivity.
    + simpl. destruct (includes "API" message) eqn:E; [|reflexivity].
      apply includes_spec in E. contradiction.
  - exists (errorMessage e). split; [|split; [exact Htitle|]].
    + destruct e as [message|v]; simpl; [destruct (includes "API" message)|];
        rewrite !elem_of_cons; auto.
    + simpl. rewrite <- !app_assoc. reflexivity.
Qed.

Lemma keyUp_failure_label_witness :
  let settings := {| automationId := Some "a1"; automationName := Some "Lights" |} in
  let env := calm (Responds {| status := 500; body := BodyJson None |}) in
  let r := onKeyUp env "button" settings (initial {["apiKey" := "abcdefghijkl"]}) in
  r.1 = Normal tt ∧ titles (elapse 3000 r.2) !! "button" = Some "Lights".
Proof.
  intros settings env r.
  assert (Hc : truthy (storedCredential env
                         (run [] (initial {["apiKey" := "abcdefghijkl"]}))) = true)
    by reflexivity.
  assert (Hi : truthy (automationId settings) = true) by reflexivity.
  assert (Hn : truthy (automationName settings) = true) by reflexivity.
  assert (Hf : failure (env_fetch env) = Some (ErrorObject "Failed to trigger automation"))
    by reflexivity.
  destruct (keyUp_failure_label {["apiKey" := "abcdefghijkl"]} [] env "button" settings
              (ErrorObject "Failed to trigger automation") Hc Hi Hn Hf) as (H1 & _ & _ & H4).
  split; [exact H1 | exact H4].
Defined.

(** An answer that is not ok is shown as "Failed"; a rejection whose
    message names the API as "API Error". *)
Example keyUp_failure_examples :
  let settings := {| automationId := Some "a1"; automationName := Some "Lights" |} in
  let s := initial {["apiKey" := "abcdefghijkl"]} in
  titles (exec (onKeyUp (calm (Responds {| status := 500; body := BodyJson None |}))
                  "button" settings) s) !! "button" = Some ("Error" +:+ nl +:+ "Failed") ∧
  titles (exec (onKeyUp (calm (Rejects (ErrorObject "API unreachable")))
                  "button" settings) s) !! "button" = Some ("Error" +:+ nl +:+ "API Error") ∧
  titles (exec (onKeyUp (calm (Rejects (ErrorObject "fetch failed")))
                  "button" settings) s) !! "button" = Some ("Error" +:+ nl +:+ "Failed").
Proof. vm_compute. auto. Qed.

(** * Further properties of the handlers *)

(** ** The shape of a key-up *)

(** Every path through [onKeyUp] ends normally with one reset scheduled,
    after 2000 or 3000 ms, from a state in which the timers, the clock and
    the settings store are as before; a request is sent on the way exactly
    when a credential is stored and both automation fields are set. *)
Lemma onKeyUp_shape (env : Env) (a : string) (settings : AutomationSettings) (s : State) :
  ∃ title image delay mid,
    onKeyUp env a settings s
    = (Normal tt, exec (bind (setTimeout a title image delay) handlesAdd) mid) ∧
    (delay = 2000 ∨ delay = 3000)%N ∧
    timers mid = timers s ∧ timeoutHandles mid = timeoutHandles s ∧
    nextHandle mid = nextHandle s ∧ now mid = now s ∧ globals mid = globals s ∧
    requests (trace mid) = requests (trace s) ++
      (if truthy (storedCredential env s) && configured settings
       then [HttpPost triggerUrl (the (storedCredential env s)) a
               (the (automationId settings))]
       else []) ∧
    relays (trace mid) = relays (trace s) ∧ writes (trace mid) = writes (trace s).
Proof.
  unfold configured, requests, relays, writes.
  destruct (truthy (storedCredential env s)) eqn:Hc.
  - destruct (truthy (automationId settings)) eqn:Hi;
      [destruct (truthy (automationName settings)) eqn:Hn|].
    + destruct (failure (env_fetch env)) as [e|] eqn:Hf.
      * eexists _, _, _, _. split; [apply (onKeyUp_failure env a settings s e Hc Hi Hn Hf)|].
        split; [right; reflexivity|]. simpl. rewrite !List.filter_app. simpl.
        rewrite !app_nil_r. repeat split; reflexivity.
      * unfold failure in Hf. destruct (env_fetch env) as [r|] eqn:Ha; [|discriminate].
        destruct (ok r) eqn:Hok; [|discriminate].
        eexists _, _, _, _.
        split; [apply (onKeyUp_success env a settings s r Hc Hi Hn Ha Hok)|].
        split; [left; reflexivity|]. simpl. rewrite !List.filter_app. simpl.
        rewrite !app_nil_r. repeat split; reflexivity.
    + exists ("Select" +:+ nl +:+ "Automation"), None, 3000%N,
        (exec (setTitle a ("No Automation" +:+ nl +:+ "Selected");; showAlert a) s).
      split.
      { rewrite onKeyUp_stored. unfold tryCatch. rewrite Hc, Hi, Hn. reflexivity. }
      split; [right; reflexivity|]. simpl. rewrite !List.filter_app. simpl.
      rewrite !app_nil_r. repeat split; reflexivity.
    + exists ("Select" +:+ nl +:+ "Automation"), None, 3000%N,
        (exec (setTitle a ("No Automation" +:+ nl +:+ "Selected");; showAlert a) s).
      split.
      { rewrite onKeyUp_stored. unfold tryCatch. rewrite Hc, Hi. reflexivity. }
      split; [right; reflexivity|]. simpl. rewrite !List.filter_app. simpl.
      rewrite !app_nil_r. repeat split; reflexivity.
  - exists ("Configure" +:+ nl +:+ "Automation"), None, 3000%N,
      (exec (setTitle a ("Missing" +:+ nl +:+ "API Key");; showAlert a) s).
    split.
    { rewrite onKeyUp_stored. unfold tryCatch. rewrite Hc. reflexivity. }
    split; [right; reflexivity|]. simpl. rewrite !List.filter_app. simpl.
    rewrite !app_nil_r. repeat split; reflexivity.
Qed.

(** X1: with a credential stored but the automation id or the automation
    name missing, key-up sets the title "No Automation Selected" and shows
    an alert; no request is sent and the handler ends normally.  The reset
    stays pending for 3000 ms; when 3000 ms have passed the title is
    "Select Automation". *)
Theorem keyUp_without_automation
    (g : gmap string string) (events : list Event)
    (env : Env) (a : string) (settings : AutomationSettings) :
  let s := run events (initial g) in
  truthy (storedCredential env s) = true →
  configured settings = false →
  let r := onKeyUp env a settings s in
  r.1 = Normal tt ∧
  trace r.2 = trace s ++ [SetTitle a ("No Automation" +:+ nl +:+ "Selected"); ShowAlert a] ∧
  titles r.2 !! a = Some ("No Automation" +:+ nl +:+ "Selected") ∧
  titles (elapse 3000 r.2) !! a = Some ("Select" +:+ nl +:+ "Automation") ∧
  ∀ d, (d < 3000)%N →
    ∃ t, t ∈ timers (elapse d r.2) ∧ cb_action t = a ∧
         cb_title t = "Select" +:+ nl +:+ "Automation" ∧ due t = (now s + 3000)%N.
Proof.
  intros s Hc Hp r.
  assert (Hs : wellFormed s) by apply wellFormed_run, wellFormed_initial.
  set (mid := exec (setTitle a ("No Automation" +:+ nl +:+ "Selected");; showAlert a) s).
  assert (Hmid : wellFormed mid).
  { apply (keeps_bind (setTitle a _) (λ _, showAlert a));
      [apply keeps_setTitle | intros _; apply keeps_showAlert | exact Hs]. }
  assert (Hr : r = (Normal tt,
                    exec (bind (setTimeout a ("Select" +:+ nl +:+ "Automation") None 3000)
                               handlesAdd) mid)).
  { unfold r. rewrite onKeyUp_stored. unfold tryCatch. rewrite Hc. cbn [negb].
    assert (Hq : negb (truthy (automationId settings))
                 || negb (truthy (automationName settings)) = true).
    { unfold configured in Hp. rewrite <- negb_andb, Hp. reflexivity. }
    rewrite Hq. reflexivity. }
  rewrite Hr. cbn [fst snd].
  destruct (scheduled_reset_fires a ("Select" +:+ nl +:+ "Automation") None 3000 mid Hmid)
    as (Ht & _ & Hp').
  split; [reflexivity|]. split; [simpl; rewrite <- app_assoc; reflexivity|].
  split; [simpl; apply lookup_insert_eq|]. split; [exact Ht|].
  intros d Hd. destruct (Hp' d Hd) as (t & H1 & H2 & H3 & _ & H5). eauto.
Qed.

Lemma keyUp_without_automation_witness :
  let settings := {| automationId := Some "a1"; automationName := None |} in
  let env := calm (Rejects (NonError JsNull)) in
  let r := onKeyUp env "button" settings (initial {["apiKey" := "abcdefghijkl"]}) in
  r.1 = Normal tt ∧
  titles (elapse 3000 r.2) !! "button" = Some ("Select" +:+ nl +:+ "Automation").
Proof.
  intros settings env r.
  assert (Hc : truthy (storedCredential env
                         (run [] (initial {["apiKey" := "abcdefghijkl"]}))) = true)
    by reflexivity.
  assert (Hp : configured settings = false) by reflexivity.
  destruct (keyUp_without_automation {["apiKey" := "abcdefghijkl"]} [] env "button"
              settings Hc Hp) as (H1 & _ & _ & H4 & _).
  split; [exact H1 | exact H4].
Defined.

(** X2: [onKeyUp] never rejects: whatever the store and the network do,
    and whatever the trigger request throws, the handler ends normally. *)
Theorem onKeyUp_never_throws
    (env : Env) (a : string) (settings : AutomationSettings) (s : State) :
  (onKeyUp env a settings s).1 = Normal tt.
Proof.
  destruct (onKeyUp_shape env a settings s) as (title & image & delay & mid & -> & _).
  reflexivity.
Qed.

(** X3: every key-up schedules exactly one reset, for the button pressed,
    2000 or 3000 ms ahead, under a handle not used before, and records
    that handle; no reset that was pending is cancelled or replaced. *)
Theorem onKeyUp_schedules_one_reset
    (env : Env) (a : string) (settings : AutomationSettings) (s : State) :
  let s' := exec (onKeyUp env a settings) s in
  ∃ t, timers s' = enqueue t (timers s) ∧
       handle t = nextHandle s ∧ nextHandle s' = S (nextHandle s) ∧
       cb_action t = a ∧
       (due t = now s + 2000 ∨ due t = now s + 3000)%N ∧
       timeoutHandles s' = {[handle t]} ∪ timeoutHandles s ∧
       now s' = now s ∧
       ∀ t', t' ∈ timers s → t' ∈ timers s'.
Proof.
  cbv zeta. unfold exec.
  destruct (onKeyUp_shape env a settings s)
    as (title & image & delay & mid & -> & Hd & Ht & Hh & Hn & Ho & _).
  exists {| handle := nextHandle s; due := (now s + delay)%N; cb_action := a;
            cb_title := title; cb_image := image |}.
  simpl. rewrite Ht, Hh, Hn, Ho.
  repeat split; try reflexivity.
  - destruct Hd as [->| ->]; [left | right]; reflexivity.
  - intros t' Hin. apply elem_of_enqueue. right. exact Hin.
Qed.

(** X4: a key-up sends a request exactly when a credential is stored and
    both automation fields are set, and then one POST to the trigger URL
    carrying that credential, the button and the automation id; the
    credential is sent as stored, its format is not checked.  A key-up
    never relays to the property inspector and never writes the settings
    store. *)
Theorem onKeyUp_requests
    (env : Env) (a : string) (settings : AutomationSettings) (s : State) :
  let s' := exec (onKeyUp env a settings) s in
  requests (trace s') = requests (trace s) ++
    (if truthy (storedCredential env s) && configured settings
     then [HttpPost triggerUrl (the (storedCredential env s)) a
             (the (automationId settings))]
     else []) ∧
  relays (trace s') = relays (trace s) ∧
  writes (trace s') = writes (trace s) ∧
  globals s' = globals s.
Proof.
  cbv zeta. unfold exec.
  destruct (onKeyUp_shape env a settings s)
    as (title & image & delay & mid & -> & _ & _ & _ & _ & _ & Hg & Hr & Hl & Hw).
  simpl. rewrite Hg. auto.
Qed.

(** ** What a handler leaves untouched *)

Lemma untouched_bind {F A B} (f : State → F) (m : Js A) (k : A → Js B) :
  untouched f m → (∀ x, untouched f (k x)) → untouched f (bind m k).
Proof.
  intros Hm Hk s. unfold bind. specialize (Hm s).
  destruct (m s) as [[x|e] s']; simpl in *; [rewrite Hk|]; exact Hm.
Qed.

Lemma untouched_tryCatch {F A} (f : State → F) (body : Js A) (handler : Thrown → Js A) :
  untouched f body → (∀ e, untouched f (handler e)) → untouched f (tryCatch body handler).
Proof.
  intros Hm Hk s. unfold tryCatch. specialize (Hm s).
  destruct (body s) as [[x|e] s']; simpl in *; [|rewrite Hk]; exact Hm.
Qed.

Ltac untouched_leaf :=
  let s := fresh "s" in
  intros s; js_host; js_monad;
  repeat match goal with
         | |- context [match ?x with _ => _ end] =>
             lazymatch type of x with
             | bool => destruct x eqn:?
             | option _ => destruct x eqn:?
             | FetchResult => destruct x eqn:?
             | Body => destruct x eqn:?
             | Thrown => destruct x eqn:?
             | JsValue => destruct x eqn:?
             end
         end;
  try congruence;
  unfold requests, relays, writes; simpl;
  rewrite ?List.filter_app; simpl; rewrite ?app_nil_r; reflexivity.

Ltac untouched_step :=
  match goal with
  | |- untouched _ (bind _ _) => apply untouched_bind; [|intros ?]
  | |- untouched _ (tryCatch _ _) => apply untouched_tryCatch; [|intros ?]
  | |- untouched _ (if ?b then _ else _) => destruct b eqn:?
  | |- untouched _ (let _ := _ in _) => cbv zeta
  | |- untouched _ (getApiKey _) => unfold getApiKey
  | |- untouched _ (saveApiKey _ _) => unfold saveApiKey
  | |- untouched _ (handleGetApiKey _) => unfold handleGetApiKey
  | |- untouched _ (handleTestApiKey _ _) => unfold handleTestApiKey
  | |- untouched _ (handleFetchAutomations _ _ _) => unfold handleFetchAutomations
  | |- untouched _ (validateApiKeyAndFetchAutomations _ _) =>
      unfold validateApiKeyAndFetchAutomations
  | |- untouched _ (onWillAppear _ _) => unfold onWillAppear
  | |- untouched _ (onDidReceiveSettings _ _ _) => unfold onDidReceiveSettings
  | |- untouched _ (onSendToPlugin _ _) => unfold onSendToPlugin
  end.

Ltac untouched_all := repeat untouched_step; untouched_leaf.

Lemma onSendToPlugin_timers env p :
  untouched timers (onSendToPlugin env p) ∧
  untouched timeoutHandles (onSendToPlugin env p) ∧
  untouched nextHandle (onSendToPlugin env p) ∧
  untouched now (onSendToPlugin env p).
Proof. repeat split; untouched_all. Qed.

Lemma onSendToPlugin_display env p :
  untouched titles (onSendToPlugin env p) ∧ untouched images (onSendToPlugin env p).
Proof. split; untouched_all. Qed.

Lemma onDidReceiveSettings_timers env a st :
  untouched timers (onDidReceiveSettings env a st) ∧
  untouched timeoutHandles (onDidReceiveSettings env a st) ∧
  untouched nextHandle (onDidReceiveSettings env a st) ∧
  untouched now (onDidReceiveSettings env a st).
Proof. repeat split; untouched_all. Qed.

Lemma onWillAppear_timers a st :
  untouched timers (onWillAppear a st) ∧
  untouched timeoutHandles (onWillAppear a st) ∧
  untouched nextHandle (onWillAppear a st) ∧
  untouched now (onWillAppear a st).
Proof. repeat split; untouched_all. Qed.

Lemma handlers_keep_globals env a st k r :
  untouched globals (onWillAppear a st) ∧
  untouched globals (onDidReceiveSettings env a st) ∧
  untouched globals (handleTestApiKey env k) ∧
  untouched globals (handleFetchAutomations env k r) ∧
  untouched globals (handleGetApiKey env).
Proof. repeat split; untouched_all. Qed.

Lemma other_events_timers (s : State) (e : Event) :
  touchesTimers e = false →
  timers (step s e) = timers s ∧ timeoutHandles (step s e) = timeoutHandles s ∧
  now (step s e) = now s.
Proof.
  destruct e as [a st|env a st|a st|env a st| |env p|d]; try discriminate; intros _; simpl.
  - destruct (onWillAppear_timers a st) as (H1 & H2 & _ & H4).
    split; [apply H1 | split; [apply H2 | apply H4]].
  - destruct (onDidReceiveSettings_timers env a st) as (H1 & H2 & _ & H4).
    split; [apply H1 | split; [apply H2 | apply H4]].
  - repeat split.
  - destruct (onSendToPlugin_timers env p) as (H1 & H2 & _ & H4).
    split; [apply H1 | split; [apply H2 | apply H4]].
Qed.

(** X5: only a key-up, a disappear and the clock change the timers: an
    appear, a settings change, a key-down and a message from the property
    inspector leave the queue of pending resets and [timeoutHandles] as
    they are, so none of them cancels or postpones a pending reset. *)
Theorem other_events_leave_timers (s : State) (e : Event) :
  touchesTimers e = false →
  timers (step s e) = timers s ∧ timeoutHandles (step s e) = timeoutHandles s ∧
  now (step s e) = now s.
Proof. apply other_events_timers. Qed.

Lemma other_events_leave_timers_witness :
  let s := run [KeyUp (calm (Rejects (NonError JsNull))) "button" noSettings] (initial ∅) in
  timers (step s (WillAppear "button" noSettings)) = timers s.
Proof.
  intros s.
  apply (other_events_leave_timers s (WillAppear "button" noSettings)). reflexivity.
Defined.

(** X6: a message from the property inspector, whatever it asks and
    however the store and the network answer, changes no title and no
    image. *)
Theorem messages_leave_display (env : Env) (payload : PIPayload) (s : State) :
  titles (exec (onSendToPlugin env payload) s) = titles s ∧
  images (exec (onSendToPlugin env payload) s) = images s.
Proof.
  destruct (onSendToPlugin_display env payload) as [H1 H2]. split; [apply H1 | apply H2].
Qed.

(** ** What the clock does *)

Lemma callbacks_effects (fired : list Timer) (s : State) :
  ∃ added, trace (foldl (λ s t, exec (callback t) s) s fired) = trace s ++ added ∧
           Forall (λ e, isDisplay e = true) added.
Proof.
  revert s. induction fired as [|t fired IH]; intros s; simpl.
  - exists []. split; [rewrite app_nil_r; reflexivity | constructor].
  - destruct (IH (exec (callback t) s)) as (added & -> & Hall).
    js_unfold callback. destruct (cb_image t); simpl.
    + eexists (_ :: _ :: added). rewrite <- !app_assoc. split; [reflexivity|].
      repeat constructor. exact Hall.
    + eexists (_ :: added). rewrite <- !app_assoc. split; [reflexivity|].
      repeat constructor. exact Hall.
Qed.

Lemma filter_display (p : Effect → bool) (added : list Effect) :
  (∀ e, isDisplay e = true → p e = false) →
  Forall (λ e, isDisplay e = true) added → List.filter p added = [].
Proof.
  intros Hp. induction 1 as [|e added He _ IH]; simpl; [reflexivity|].
  rewrite (Hp e He). exact IH.
Qed.

(** X7: when the clock advances, the callbacks that fire only set titles
    and images: they send no request, relay nothing, show no alert and do
    not write the settings store. *)
Theorem elapse_only_displays (d : N) (s : State) :
  (∃ added, trace (elapse d s) = trace s ++ added ∧
            Forall (λ e, isDisplay e = true) added) ∧
  requests (trace (elapse d s)) = requests (trace s) ∧
  relays (trace (elapse d s)) = relays (trace s) ∧
  writes (trace (elapse d s)) = writes (trace s) ∧
  globals (elapse d s) = globals s.
Proof.
  unfold elapse. cbv zeta.
  match goal with
  | |- context [foldl ?f ?s0 ?l] =>
      destruct (callbacks_effects l s0) as (added & Ht & Hall);
      destruct (fired_callbacks l s0) as (_ & _ & _ & Hg & _)
  end.
  cbv zeta in Hg. rewrite Ht, Hg. simpl.
  split; [exists added; split; [reflexivity | exact Hall]|].
  unfold requests, relays, writes. rewrite !List.filter_app.
  rewrite !(filter_display _ added) by (try exact Hall; intros [] ?; try discriminate; reflexivity).
  rewrite !app_nil_r. repeat split.
Qed.

(** ** Handles and due times *)

Lemma elapse_handles (d : N) (s : State) (h : nat) :
  h ∈ timeoutHandles (elapse d s) ↔
  h ∈ timeoutHandles s ∧ h ∉ handle <$> filter (λ t, (due t ≤ now s + d)%N) (timers s).
Proof.
  unfold elapse. cbv zeta.
  match goal with
  | |- context [foldl ?f ?s0 ?l] => destruct (fired_callbacks l s0) as (_ & _ & _ & _ & Eh)
  end.
  cbv zeta in Eh. rewrite Eh. reflexivity.
Qed.

Lemma settled_step (s : State) (e : Event) :
  wellFormed s → settled s → settled (step s e).
Proof.
  intros Hw [Hx Hd].
  destruct (touchesTimers e) eqn:Ht.
  - destruct e as [a st|env a st|a st|env a st| |env p|d]; try discriminate; simpl.
    + unfold exec.
      destruct (onKeyUp_shape env a st s)
        as (title & image & delay & mid & -> & Hdel & Et & Eh & En & Eo & _).
      split; simpl; rewrite ?Et, ?Eh, ?En, ?Eo.
      * intros h Hin. apply elem_of_union in Hin as [Hin|Hin].
        -- apply elem_of_singleton in Hin as ->.
           eexists. split; [apply elem_of_enqueue; left; reflexivity | reflexivity].
        -- destruct (Hx h Hin) as (t & Hin' & E). exists t.
           split; [apply elem_of_enqueue; right; exact Hin' | exact E].
      * intros t Hin. apply elem_of_enqueue in Hin as [->|Hin]; simpl.
        -- destruct Hdel as [->| ->]; lia.
        -- apply Hd, Hin.
    + pose proof (cleanup_empties s Hw) as He. unfold onWillDisappear, exec in *.
      split; simpl in *.
      * intros h Hin. apply elem_of_empty in Hin. destruct Hin.
      * rewrite He. intros t Hin. apply elem_of_nil in Hin. destruct Hin.
    + destruct (elapse_timers d s) as [Et En]. split; rewrite ?Et, ?En.
      * intros h Hin. apply elapse_handles in Hin as [Hin Hnot].
        destruct (Hx h Hin) as (t & Hin' & E). exists t. split; [|exact E].
        apply list_elem_of_filter. split; [|exact Hin'].
        intros Hdue. apply Hnot. rewrite <- E.
        apply list_elem_of_fmap_2, list_elem_of_filter. split; assumption.
      * intros t Hin. apply list_elem_of_filter in Hin as [Hlate Hin].
        specialize (Hd t Hin). lia.
  - destruct (other_events_timers s e Ht) as (Et & Eh & En).
    split; rewrite ?Et, ?Eh, ?En; assumption.
Qed.

Lemma settled_initial (g : gmap string string) : settled (initial g).
Proof.
  split; simpl.
  - intros h Hin. apply elem_of_empty in Hin. destruct Hin.
  - intros t Hin. apply elem_of_nil in Hin. destruct Hin.
Qed.

Lemma settled_run (events : list Event) (s : State) :
  wellFormed s → settled s → settled (run events s).
Proof.
  revert s. induction events as [|e events IH]; intros s Hw Hs; simpl; [exact Hs|].
  apply IH; [apply wellFormed_step, Hw | apply settled_step; assumption].
Qed.

(** X8: between two events [timeoutHandles] is exactly the set of handles
    of the pending resets: a handle is added when its reset is scheduled
    and removed when the reset fires or is cancelled, so no handle of a
    finished reset is kept. *)
Theorem handles_are_the_pending_resets (g : gmap string string) (events : list Event) :
  timeoutHandles (run events (initial g)) = pendingHandles (run events (initial g)).
Proof.
  pose proof (wellFormed_run events (initial g) (wellFormed_initial g)) as Hw.
  pose proof (settled_run events (initial g) (wellFormed_initial g) (settled_initial g))
    as Hs.
  apply set_eq. intros h. unfold pendingHandles.
  rewrite elem_of_list_to_set, list_elem_of_fmap. split.
  - intros Hin. destruct (st_exact _ Hs h Hin) as (t & Ht & E). eauto.
  - intros (t & -> & Ht). apply (wf_tracked _ Hw), Ht.
Qed.



(** ** The settings store *)

Lemma elapse_globals (d : N) (s : State) : globals (elapse d s) = globals s.
Proof.
  unfold elapse. cbv zeta.
  match goal with
  | |- context [foldl ?f ?s0 ?l] => destruct (fired_callbacks l s0) as (_ & _ & _ & Hg & _)
  end.
  exact Hg.
Qed.

Lemma step_globals (s : State) (e : Event) :
  globals (step s e) = globals s ∨
  ∃ k, validateApiKey k = true ∧ globals (step s e) = <["apiKey" := k]> (globals s).
Proof.
  destruct e as [a st|env a st|a st|env a st| |env p|d]; simpl.
  - left. apply (handlers_keep_globals (calm (Rejects (NonError JsNull))) a st
                   EmptyString (Rejects (NonError JsNull))).
  - left. apply (handlers_keep_globals env a st EmptyString (Rejects (NonError JsNull))).
  - left. reflexivity.
  - left. unfold exec.
    destruct (onKeyUp_shape env a st s)
      as (title & image & delay & mid & -> & _ & _ & _ & _ & _ & Hg & _).
    simpl. exact Hg.
  - left. reflexivity.
  - destruct (handlers_keep_globals env EmptyString noSettings (the (data_apiKey p))
                (env_fetch env)) as (_ & _ & Htest & Hfetch & Hget).
    unfold onSendToPlugin, exec.
    destruct (String.eqb (action p) "saveApiKey").
    + destruct (truthy (data_apiKey p)); [|left; reflexivity].
      unfold bind, saveApiKey.
      destruct (validateApiKey (the (data_apiKey p))) eqn:Hv; [|left; reflexivity].
      cbn [negb]. unfold bind, getGlobalSettings, setGlobalSettings.
      destruct (env_getGlobal env); [left; reflexivity|].
      destruct (env_setGlobal env); [left; reflexivity|].
      unfold modify. right. exists (the (data_apiKey p)).
      split; [exact Hv|]. rewrite Htest. reflexivity.
    + destruct (String.eqb (action p) "testApiKey").
      { destruct (truthy (data_apiKey p)); left; [apply Htest | reflexivity]. }
      destruct (String.eqb (action p) "fetchAutomations").
      { destruct (truthy (data_apiKey p)); left; [apply Hfetch | reflexivity]. }
      destruct (String.eqb (action p) "getApiKey"); left; [apply Hget | reflexivity].
  - left. apply elapse_globals.
Qed.

(** The four branches of [onSendToPlugin]. *)
Lemma onSendToPlugin_saveApiKey (env : Env) (k : option string) :
  onSendToPlugin env {| action := "saveApiKey"; data_apiKey := k |}
  = if truthy k then (saveApiKey env (the k);; handleTestApiKey env (the k)) else ret tt.
Proof. reflexivity. Qed.

Lemma onSendToPlugin_testApiKey (env : Env) (k : option string) :
  onSendToPlugin env {| action := "testApiKey"; data_apiKey := k |}
  = if truthy k then handleTestApiKey env (the k) else ret tt.
Proof. reflexivity. Qed.

Lemma onSendToPlugin_fetchAutomations (env : Env) (k : option string) :
  onSendToPlugin env {| action := "fetchAutomations"; data_apiKey := k |}
  = if truthy k then handleFetchAutomations env (the k) (env_fetch env) else ret tt.
Proof. reflexivity. Qed.

Lemma onSendToPlugin_getApiKey (env : Env) (k : option string) :
  onSendToPlugin env {| action := "getApiKey"; data_apiKey := k |} = handleGetApiKey env.
Proof. reflexivity. Qed.

Lemma valid_key_truthy (key : string) : validateApiKey key = true → truthy (Some key) = true.
Proof. destruct key; [discriminate | reflexivity]. Qed.

(** X10: the plugin writes the settings store only to save a key that
    passed the format check.  In every reachable state every global setting
    other than [apiKey] is as it was at the start, and the stored key is the
    one from the start or a key that [validateApiKey] accepts. *)
Theorem store_changes_only_by_valid_save (g : gmap string string) (events : list Event) :
  let s := run events (initial g) in
  (∀ key, key ≠ "apiKey" → globals s !! key = g !! key) ∧
  (∀ k, globals s !! "apiKey" = Some k → g !! "apiKey" = Some k ∨ validateApiKey k = true).
Proof.
  cbv zeta.
  assert (Hgen : ∀ s0,
            (∀ key, key ≠ "apiKey" → globals (run events s0) !! key = globals s0 !! key) ∧
            (∀ k, globals (run events s0) !! "apiKey" = Some k →
                  globals s0 !! "apiKey" = Some k ∨ validateApiKey k = true)).
  { induction events as [|e events IH]; intros s0; simpl; [auto|].
    destruct (IH (step s0 e)) as [H1 H2].
    destruct (step_globals s0 e) as [E|(k0 & Hv & E)].
    - rewrite E in H1, H2. auto.
    - split.
      + intros key Hkey. rewrite (H1 key Hkey), E. apply lookup_insert_ne. congruence.
      + intros k Hk. destruct (H2 k Hk) as [Hin|Hval]; [|right; exact Hval].
        rewrite E, lookup_insert_eq in Hin. injection Hin as <-. right. exact Hv. }
  exact (Hgen (initial g)).
Qed.

(** X11: a saved key is the key that is read back.  After a saveApiKey
    message with a key of valid format, the store working, the store holds
    that key and keeps its other entries; a later getApiKey message relays
    exactly that key, and a later handler finds it as the credential,
    whatever the network answered to the test that follows the save. *)
Theorem saved_key_is_read_back (env env' : Env) (key : string) (s : State) :
  validateApiKey key = true →
  env_getGlobal env = None → env_setGlobal env = None →
  env_getGlobal env' = None → env_ui env' = true →
  let s' := exec (onSendToPlugin env {| action := "saveApiKey"; data_apiKey := Some key |}) s in
  globals s' = <["apiKey" := key]> (globals s) ∧
  storedCredential env' s' = Some key ∧
  truthy (storedCredential env' s') = true ∧
  onSendToPlugin env' {| action := "getApiKey"; data_apiKey := None |} s'
  = (Normal tt, logged (SendToPropertyInspector (apiKeyLoaded key)) s').
Proof.
  intros Hv Hg Hs Hg' Hui s'.
  pose proof (valid_key_truthy key Hv) as Hne.
  assert (Hglob : globals s' = <["apiKey" := key]> (globals s)).
  { unfold s', exec. rewrite onSendToPlugin_saveApiKey, Hne.
    destruct (handlers_keep_globals env EmptyString noSettings key (env_fetch env))
      as (_ & _ & Htest & _).
    change (the (Some key)) with key.
    unfold bind, saveApiKey. rewrite Hv. cbn [negb].
    unfold bind, getGlobalSettings, setGlobalSettings. rewrite Hg, Hs.
    unfold modify. rewrite Htest. reflexivity. }
  assert (Hcred : storedCredential env' s' = Some key).
  { unfold storedCredential. rewrite Hg', Hglob. apply lookup_insert_eq. }
  split; [exact Hglob|]. split; [exact Hcred|]. split; [rewrite Hcred; exact Hne|].
  rewrite onSendToPlugin_getApiKey.
  unfold handleGetApiKey, bind. rewrite getApiKey_stored, Hcred.
  unfold sendToPropertyInspector. rewrite Hui. unfold orElse. rewrite Hne. reflexivity.
Qed.

Lemma saved_key_is_read_back_witness :
  let env := calm (Rejects (ErrorObject "offline")) in
  let s' := exec (onSendToPlugin env
                    {| action := "saveApiKey"; data_apiKey := Some "abcdefghijkl" |})
                 (initial ∅) in
  storedCredential env s' = Some "abcdefghijkl".
Proof.
  intros env s'.
  apply (saved_key_is_read_back env env "abcdefghijkl" (initial ∅)); reflexivity.
Defined.

(** X12: when the store fails while a key of valid format is saved (the
    read or the write is rejected), the saveApiKey message ends with the
    error of the store and nothing has happened: the key is not stored, it
    is not tested against the network, and nothing is relayed. *)
Theorem save_fails_with_the_store (env : Env) (key : string) (e : Thrown) (s : State) :
  validateApiKey key = true →
  env_getGlobal env = Some e ∨ (env_getGlobal env = None ∧ env_setGlobal env = Some e) →
  onSendToPlugin env {| action := "saveApiKey"; data_apiKey := Some key |} s = (Abrupt e, s).
Proof.
  intros Hv Hfail.
  rewrite onSendToPlugin_saveApiKey, (valid_key_truthy key Hv).
  change (the (Some key)) with key.
  unfold bind, saveApiKey. rewrite Hv. cbn [negb].
  unfold bind, getGlobalSettings, setGlobalSettings.
  destruct Hfail as [Hg|[Hg Hs]]; rewrite Hg; [reflexivity|]. rewrite Hs. reflexivity.
Qed.

Lemma save_fails_with_the_store_witness :
  let env := {| env_getGlobal := None; env_setGlobal := Some (ErrorObject "disk full");
                env_ui := true;
                env_fetch := Responds {| status := 200; body := BodyJson None |};
                env_fetch2 := Responds {| status := 200; body := BodyJson None |} |} in
  onSendToPlugin env {| action := "saveApiKey"; data_apiKey := Some "abcdefghijkl" |}
    (initial ∅)
  = (Abrupt (ErrorObject "disk full"), initial ∅).
Proof.
  intros env.
  apply (save_fails_with_the_store env "abcdefghijkl" (ErrorObject "disk full") (initial ∅));
    [reflexivity | right; split; reflexivity].
Defined.

(** ** Handlers that cannot reject *)

Lemma endsNormally_bind {A B} (m : Js A) (k : A → Js B) :
  endsNormally m → (∀ x, endsNormally (k x)) → endsNormally (bind m k).
Proof.
  intros Hm Hk s. unfold bind. destruct (Hm s) as [x Hx].
  destruct (m s) as [[y|e] s']; simpl in Hx; [apply Hk | discriminate].
Qed.

Lemma endsNormally_tryCatch {A} (body : Js A) (handler : Thrown → Js A) :
  (∀ e, endsNormally (handler e)) → endsNormally (tryCatch body handler).
Proof.
  intros Hk s. unfold tryCatch.
  destruct (body s) as [[y|e] s']; simpl; [eauto | apply Hk].
Qed.

Lemma endsNormally_modify (f : State → State) : endsNormally (modify f).
Proof. intros s. exists tt. reflexivity. Qed.

Lemma endsNormally_ret {A} (x : A) : endsNormally (ret x).
Proof. intros s. exists x. reflexivity. Qed.

Lemma endsNormally_sendToPropertyInspector env p :
  endsNormally (sendToPropertyInspector env p).
Proof.
  unfold sendToPropertyInspector.
  destruct (env_ui env); [apply endsNormally_modify | apply endsNormally_ret].
Qed.

Ltac normal_step :=
  match goal with
  | |- endsNormally (tryCatch _ _) => apply endsNormally_tryCatch; intros ?
  | |- endsNormally (bind _ _) => apply endsNormally_bind; [|intros ?]
  | |- endsNormally (if ?b then _ else _) => destruct b
  | |- endsNormally (ret _) => apply endsNormally_ret
  | |- endsNormally (modify _) => apply endsNormally_modify
  | |- endsNormally (setTitle _ _) => apply endsNormally_modify
  | |- endsNormally (showAlert _) => apply endsNormally_modify
  | |- endsNormally (sendToPropertyInspector _ _) =>
      apply endsNormally_sendToPropertyInspector
  | |- endsNormally (getApiKey _) => unfold getApiKey
  | |- endsNormally (handleGetApiKey _) => unfold handleGetApiKey
  | |- endsNormally (handleTestApiKey _ _) => unfold handleTestApiKey
  | |- endsNormally (validateApiKeyAndFetchAutomations _ _) =>
      unfold validateApiKeyAndFetchAutomations
  | |- endsNormally (onWillAppear _ _) => unfold onWillAppear
  | |- endsNormally (onDidReceiveSettings _ _ _) => unfold onDidReceiveSettings
  end.

Lemma unit_completion (c : Completion unit) : (∃ x, c = Normal x) → c = Normal tt.
Proof. intros [[] H]. exact H. Qed.

(** X13: a testApiKey or getApiKey message, or a message with an unknown
    action, never ends with a thrown value, however the store and the
    network fail: every failure is turned into a relayed message.  Only
    saveApiKey and fetchAutomations messages can reject. *)
Theorem messages_end_normally (env : Env) (payload : PIPayload) (s : State) :
  action payload ≠ "saveApiKey" → action payload ≠ "fetchAutomations" →
  (onSendToPlugin env payload s).1 = Normal tt.
Proof.
  intros Hsave Hfetch. apply unit_completion. revert s.
  change (endsNormally (onSendToPlugin env payload)).
  unfold onSendToPlugin.
  destruct (String.eqb_spec (action payload) "saveApiKey"); [contradiction|].
  destruct (String.eqb_spec (action payload) "fetchAutomations");
    [contradiction|].
  repeat normal_step.
Qed.

Lemma messages_end_normally_witness :
  (onSendToPlugin
     {| env_getGlobal := Some (NonError JsUndefined); env_setGlobal := None;
        env_ui := true; env_fetch := Rejects (NonError JsUndefined);
        env_fetch2 := Rejects (NonError JsUndefined) |}
     {| action := "testApiKey"; data_apiKey := Some "abcdefghijkl" |}
     (initial ∅)).1 = Normal tt.
Proof. apply messages_end_normally; discriminate. Defined.

(** ** Changed settings *)

Lemma validateApiKeyAndFetchAutomations_trace (env : Env) (apiKey : string) (s : State) :
  let s' := exec (validateApiKeyAndFetchAutomations env apiKey) s in
  requests (trace s') = requests (trace s) ++ [HttpGet automationsUrl apiKey] ∧
  writes (trace s') = writes (trace s).
Proof.
  js_unfold validateApiKeyAndFetchAutomations. unfold requests, writes.
  destruct (env_fetch env) as [r|e]; simpl;
    [destruct (ok r); simpl; [destruct (body r) as [l|e]; simpl|]|];
    destruct (env_ui env); simpl;
    rewrite ?List.filter_app; simpl; rewrite ?app_nil_r; split; reflexivity.
Qed.

(** X14: a settings change never rejects and never writes the settings
    store.  It sends a request exactly when a credential is stored and the
    settings have no automation id, and then one GET of the catalogue with
    that credential; with an automation id in the settings nothing is
    requested, whether or not a name comes with it. *)
Theorem onDidReceiveSettings_requests
    (env : Env) (a : string) (settings : AutomationSettings) (s : State) :
  let r := onDidReceiveSettings env a settings s in
  r.1 = Normal tt ∧
  requests (trace r.2) = requests (trace s) ++
    (if truthy (storedCredential env s) && negb (truthy (automationId settings))
     then [HttpGet automationsUrl (the (storedCredential env s))]
     else []) ∧
  writes (trace r.2) = writes (trace s) ∧
  globals r.2 = globals s.
Proof.
  cbv zeta. split; [|split; [|split]].
  - apply unit_completion. revert s.
    change (endsNormally (onDidReceiveSettings env a settings)).
    repeat normal_step.
  - rewrite onDidReceiveSettings_unfold. cbv zeta.
    destruct (truthy (storedCredential env s) && negb (truthy (automationId settings))).
    + match goal with
      | |- context [validateApiKeyAndFetchAutomations env ?k ?s0] =>
          destruct (validateApiKeyAndFetchAutomations_trace env k s0) as [Hr _]
      end.
      unfold exec in Hr. rewrite Hr. unfold requests. simpl.
      rewrite List.filter_app. simpl. rewrite app_nil_r. reflexivity.
    + unfold requests. simpl. rewrite List.filter_app. simpl.
      rewrite !app_nil_r. reflexivity.
  - rewrite onDidReceiveSettings_unfold. cbv zeta.
    destruct (truthy (storedCredential env s) && negb (truthy (automationId settings))).
    + match goal with
      | |- context [validateApiKeyAndFetchAutomations env ?k ?s0] =>
          destruct (validateApiKeyAndFetchAutomations_trace env k s0) as [_ Hw]
      end.
      unfold exec in Hw. rewrite Hw. unfold writes. simpl.
      rewrite List.filter_app. simpl. rewrite app_nil_r. reflexivity.
    + unfold writes. simpl. rewrite List.filter_app. simpl.
      rewrite !app_nil_r. reflexivity.
  - apply (handlers_keep_globals env a settings EmptyString (Rejects (NonError JsNull))).
Qed.

(** ** Testing a key and fetching the catalogue *)

(** X15: when the answer to the test of a key is not ok, one request has
    been sent and one message is relayed, [apiKeyTested] with [valid] false
    and a text chosen by the status: "Invalid or expired API key" for 401,
    "API key does not have required permissions" for 403, and "API error: "
    followed by the status otherwise.  The catalogue is not requested. *)
Theorem testApiKey_not_ok (env : Env) (key : string) (r : Response) (s : State) :
  env_ui env = true → env_fetch env = Responds r → ok r = false →
  ∃ label,
    handleTestApiKey env key s
    = (Normal tt,
       logged (SendToPropertyInspector (apiKeyTested false (Some label)))
         (logged (HttpGet automationsUrl key) s)) ∧
    (status r = 401%N → label = "Invalid or expired API key") ∧
    (status r = 403%N → label = "API key does not have required permissions") ∧
    (status r ≠ 401%N → status r ≠ 403%N → label = "API error: " +:+ showN (status r)).
Proof.
  intros Hui Hf Hok. js_unfold handleTestApiKey. rewrite Hui, Hf. simpl. rewrite Hok.
  eexists. split; [reflexivity|].
  destruct (N.eqb_spec (status r) 401) as [E1|N1];
    [|destruct (N.eqb_spec (status r) 403) as [E3|N3]].
  - repeat split; intros; try reflexivity; congruence.
  - repeat split; intros; try reflexivity; congruence.
  - repeat split; intros; try reflexivity; congruence.
Qed.

Lemma testApiKey_not_ok_witness :
  trace (exec (handleTestApiKey
                 (calm (Responds {| status := 503; body := BodyJson None |}))
                 "abcdefghijkl") (initial ∅))
  = [HttpGet automationsUrl "abcdefghijkl";
     SendToPropertyInspector (apiKeyTested false (Some "API error: 503"))].
Proof.
  destruct (testApiKey_not_ok
              (calm (Responds {| status := 503; body := BodyJson None |}))
              "abcdefghijkl" {| status := 503; body := BodyJson None |} (initial ∅)
              eq_refl eq_refl eq_refl) as (label & E & _ & _ & H).
  unfold exec. rewrite E. simpl. rewrite H by (simpl; lia). reflexivity.
Defined.

Lemma handleFetchAutomations_starts (env : Env) (key : string) (answer : FetchResult)
    (s : State) :
  ∃ rest, trace (exec (handleFetchAutomations env key answer) s)
          = trace s ++ HttpGet automationsUrl key :: rest.
Proof.
  js_unfold handleFetchAutomations.
  destruct answer as [r|e]; simpl;
    [destruct (ok r); simpl; [destruct (body r) as [l|e]; simpl|]|];
    try (destruct e as [m|[]]; simpl);
    destruct (env_ui env); simpl; rewrite <- ?app_assoc; eexists; reflexivity.
Qed.

(** X16: when the answer to the test of a key is ok, [apiKeyTested] with
    [valid] true is relayed and the catalogue is then requested with the
    same key: the requests and relays of the handler start with the test
    request, the relay and a second request. *)
Theorem testApiKey_ok_fetches_catalogue (env : Env) (key : string) (r : Response)
    (s : State) :
  env_ui env = true → env_fetch env = Responds r → ok r = true →
  ∃ rest, trace (exec (handleTestApiKey env key) s)
          = trace s ++ HttpGet automationsUrl key
              :: SendToPropertyInspector (apiKeyTested true None)
              :: HttpGet automationsUrl key :: rest.
Proof.
  intros Hui Hf Hok. unfold handleTestApiKey, tryCatch, exec.
  unfold bind at 1. unfold fetch at 1. rewrite Hf.
  unfold bind at 1. unfold modify at 1. unfold ret at 1. cbn beta iota. rewrite Hok.
  unfold bind at 1. unfold sendToPropertyInspector at 1. rewrite Hui.
  unfold modify at 1. cbn beta iota.
  match goal with
  | |- context [handleFetchAutomations env key ?ans ?s0] =>
      destruct (handleFetchAutomations_starts env key ans s0) as [rest Hrest];
      unfold exec in Hrest;
      destruct (handleFetchAutomations env key ans s0) as [[[]|e] s1]
  end; simpl in Hrest |- *.
  - exists rest. rewrite Hrest, <- !app_assoc. reflexivity.
  - unfold sendToPropertyInspector, modify. rewrite Hui. simpl.
    eexists. rewrite Hrest, <- !app_assoc. simpl. reflexivity.
Qed.

Lemma testApiKey_ok_fetches_catalogue_witness :
  ∃ rest,
    trace (exec (handleTestApiKey
                   (calm (Responds {| status := 200; body := BodyJson None |}))
                   "abcdefghijkl") (initial ∅))
    = [] ++ HttpGet automationsUrl "abcdefghijkl"
         :: SendToPropertyInspector (apiKeyTested true None)
         :: HttpGet automationsUrl "abcdefghijkl" :: rest.
Proof.
  apply (testApiKey_ok_fetches_catalogue
           (calm (Responds {| status := 200; body := BodyJson None |}))
           "abcdefghijkl" {| status := 200; body := BodyJson None |} (initial ∅));
    reflexivity.
Defined.

(** X17: when the catalogue request is answered ok and the body can be
    read, the handler ends normally having relayed one message,
    [automationsLoaded] with the list of the body, or with the empty list
    when the body has no [automations]. *)
Theorem fetchAutomations_relays_catalogue
    (env : Env) (key : string) (r : Response) (l : option (list AutomationData))
    (s : State) :
  env_ui env = true → ok r = true → body r = BodyJson l →
  handleFetchAutomations env key (Responds r) s
  = (Normal tt,
     logged (SendToPropertyInspector (automationsLoaded (default [] l)))
       (logged (HttpGet automationsUrl key) s)).
Proof.
  intros Hui Hok Hb. js_unfold handleFetchAutomations. simpl.
  rewrite Hok, Hb, Hui. reflexivity.
Qed.

Lemma fetchAutomations_relays_catalogue_witness :
  trace (exec (handleFetchAutomations
                 (calm (Rejects (NonError JsNull))) "abcdefghijkl"
                 (Responds {| status := 200; body := BodyJson None |})) (initial ∅))
  = [HttpGet automationsUrl "abcdefghijkl";
     SendToPropertyInspector (automationsLoaded [])].
Proof.
  unfold exec.
  rewrite (fetchAutomations_relays_catalogue (calm (Rejects (NonError JsNull)))
             "abcdefghijkl" {| status := 200; body := BodyJson None |} None (initial ∅)
             eq_refl eq_refl eq_refl).
  reflexivity.
Defined.

(** X18: a testApiKey or fetchAutomations message sends the key it carries
    to the network as it is: the format check of [validateApiKey] is applied
    only when a key is saved, so also a key it rejects is sent. *)
Theorem keys_are_tested_unvalidated (env : Env) (payload : PIPayload) (s : State) :
  action payload = "testApiKey" ∨ action payload = "fetchAutomations" →
  truthy (data_apiKey payload) = true →
  ∃ rest, trace (exec (onSendToPlugin env payload) s)
          = trace s ++ HttpGet automationsUrl (the (data_apiKey payload)) :: rest.
Proof.
  intros Ha Hk. destruct payload as [act key]. simpl in *.
  destruct Ha as [->| ->].
  - rewrite onSendToPlugin_testApiKey, Hk.
    js_unfold handleTestApiKey.
    destruct (env_fetch env) as [r|e]; simpl.
    + destruct (ok r); simpl.
      * destruct (env_ui env); simpl;
          match goal with
          | |- context [handleFetchAutomations env ?k ?ans ?s0] =>
              destruct (handleFetchAutomations_starts env k ans s0) as [rest Hrest];
              unfold exec in Hrest;
              destruct (handleFetchAutomations env k ans s0) as [[[]|e] s1]
          end; simpl in Hrest |- *; rewrite ?Hrest, <- ?app_assoc; eexists; reflexivity.
      * destruct (env_ui env); simpl; rewrite <- ?app_assoc; eexists; reflexivity.
    + destruct (env_ui env); simpl; rewrite <- ?app_assoc; eexists; reflexivity.
  - rewrite onSendToPlugin_fetchAutomations, Hk.
    apply handleFetchAutomations_starts.
Qed.

Lemma keys_are_tested_unvalidated_witness :
  validateApiKey "bad key" = false ∧
  ∃ rest,
    trace (exec (onSendToPlugin (calm (Rejects (ErrorObject "offline")))
                   {| action := "testApiKey"; data_apiKey := Some "bad key" |})
                (initial ∅))
    = [] ++ HttpGet automationsUrl "bad key" :: rest.
Proof.
  split; [reflexivity|].
  apply (keys_are_tested_unvalidated (calm (Rejects (ErrorObject "offline")))
           {| action := "testApiKey"; data_apiKey := Some "bad key" |} (initial ∅));
    [left; reflexivity | reflexivity].
Defined.

(** X19: a getApiKey message relays one [apiKeyLoaded] message and does
    nothing else: it carries the stored key, or the empty string when no
    key is stored, when the stored key is empty or when the store cannot be
    read. *)
Theorem getApiKey_relays_stored_key (env : Env) (payload : PIPayload) (s : State) :
  action payload = "getApiKey" → env_ui env = true →
  ∃ key,
    onSendToPlugin env payload s
    = (Normal tt, logged (SendToPropertyInspector (apiKeyLoaded key)) s) ∧
    (truthy (storedCredential env s) = true → storedCredential env s = Some key) ∧
    (truthy (storedCredential env s) = false → key = EmptyString).
Proof.
  intros Ha Hui. destruct payload as [act k]. simpl in Ha. subst act.
  rewrite onSendToPlugin_getApiKey.
  unfold handleGetApiKey, bind. rewrite getApiKey_stored.
  unfold sendToPropertyInspector. rewrite Hui. unfold orElse.
  destruct (storedCredential env s) as [[|c k']|]; simpl;
    eexists; (split; [reflexivity|]); split; intros; congruence.
Qed.

Lemma getApiKey_relays_stored_key_witness :
  ∃ key,
    onSendToPlugin
      {| env_getGlobal := Some (ErrorObject "store closed"); env_setGlobal := None;
         env_ui := true; env_fetch := Rejects (NonError JsNull);
         env_fetch2 := Rejects (NonError JsNull) |}
      {| action := "getApiKey"; data_apiKey := None |}
      (initial {["apiKey" := "abcdefghijkl"]})
    = (Normal tt, logged (SendToPropertyInspector (apiKeyLoaded key))
                    (initial {["apiKey" := "abcdefghijkl"]})) ∧ key = EmptyString.
Proof.
  destruct (getApiKey_relays_stored_key
              {| env_getGlobal := Some (ErrorObject "store closed"); env_setGlobal := None;
                 env_ui := true; env_fetch := Rejects (NonError JsNull);
                 env_fetch2 := Rejects (NonError JsNull) |}
              {| action := "getApiKey"; data_apiKey := None |}
              (initial {["apiKey" := "abcdefghijkl"]}) eq_refl eq_refl)
    as (key & E & _ & H).
  exists key. split; [exact E | apply H; reflexivity].
Defined.

(** X20: while no property inspector is open ([streamDeck.ui.current] is
    undefined) nothing is relayed: whatever a message handler or a settings
    change finds out from the store and the network is dropped. *)
Theorem closed_inspector_gets_nothing
    (env : Env) (payload : PIPayload) (a : string) (settings : AutomationSettings)
    (s : State) :
  env_ui env = false →
  relays (trace (exec (onSendToPlugin env payload) s)) = relays (trace s) ∧
  relays (trace (exec (onDidReceiveSettings env a settings) s)) = relays (trace s).
Proof.
  intros Hui. split.
  - assert (H : untouched (λ s, relays (trace s)) (onSendToPlugin env payload))
      by untouched_all.
    apply H.
  - assert (H : untouched (λ s, relays (trace s)) (onDidReceiveSettings env a settings))
      by untouched_all.
    apply H.
Qed.

Lemma closed_inspector_gets_nothing_witness :
  let env := {| env_getGlobal := None; env_setGlobal := None; env_ui := false;
                env_fetch := Responds {| status := 200; body := BodyJson None |};
                env_fetch2 := Responds {| status := 200; body := BodyJson None |} |} in
  relays (trace (exec (onSendToPlugin env
                         {| action := "testApiKey"; data_apiKey := Some "abcdefghijkl" |})
                      (initial ∅))) = [].
Proof.
  intros env.
  apply (closed_inspector_gets_nothing env
           {| action := "testApiKey"; data_apiKey := Some "abcdefghijkl" |}
           "button" noSettings (initial ∅)).
  reflexivity.
Defined.

(** ** Overlapping presses *)

Lemma filter_enqueue_out (P : Timer → Prop) `{!∀ t, Decision (P t)}
    (t : Timer) (q : list Timer) :
  ¬ P t → filter P (enqueue t q) = filter P q.
Proof.
  intros Hn. induction q as [|x q IH]; simpl.
  - rewrite filter_cons_False by exact Hn. reflexivity.
  - destruct (due x <=? due t)%N.
    + rewrite !(filter_cons _ x), IH. reflexivity.
    + rewrite (filter_cons_False _ t) by exact Hn. reflexivity.
Qed.

Lemma filter_swap (P Q : Timer → Prop) `{!∀ t, Decision (P t)} `{!∀ t, Decision (Q t)}
    (q : list Timer) :
  filter P (filter Q q) = filter Q (filter P q).
Proof.
  induction q as [|x q IH]; [reflexivity|].
  rewrite !(filter_cons _ x).
  destruct (decide (Q x)) as [HQ|HQ], (decide (P x)) as [HP|HP];
    rewrite ?(filter_cons_True _ x) by assumption;
    rewrite ?(filter_cons_False _ x) by assumption;
    rewrite IH; reflexivity.
Qed.

Lemma elapse_last (d : N) (s : State) (t : Timer) (before : list Timer) :
  filter (λ x, (due x ≤ now s + d)%N) (timers s) = before ++ [t] →
  ∃ s0, elapse d s = exec (callback t) s0.
Proof.
  intros H. unfold elapse. cbv zeta. rewrite H, foldl_snoc. eexists. reflexivity.
Qed.

(** X21: a key-up does not cancel the reset of an earlier key-up on the
    same button.  When a button is pressed again less than 2000 ms after a
    successful trigger, the reset of the first press still fires 2000 ms
    after the first press: at that moment the title is the automation name
    and the image the default asset, whatever the second press was showing,
    and the reset of the second press is still pending. *)
Theorem overlapping_presses
    (g : gmap string string) (events : list Event) (env1 env2 : Env) (a : string)
    (st1 st2 : AutomationSettings) (r : Response) (d : N) :
  let s := run events (initial g) in
  truthy (storedCredential env1 s) = true → configured st1 = true →
  env_fetch env1 = Responds r → ok r = true →
  (0 < d < 2000)%N →
  let s3 := run [KeyUp env1 a st1; Elapse d; KeyUp env2 a st2] s in
  let s4 := elapse (2000 - d) s3 in
  titles s4 !! a = Some (the (automationName st1)) ∧
  images s4 !! a = Some keyImage ∧
  ∃ t2, t2 ∈ timers s4 ∧ cb_action t2 = a ∧ (now s4 < due t2)%N.
Proof.
  intros s Hc Hconf Hf Hok Hd s3 s4.
  apply andb_true_iff in Hconf as [Hi Hn].
  assert (Hs : wellFormed s) by apply wellFormed_run, wellFormed_initial.
  set (t1 := {| handle := nextHandle s; due := (now s + 2000)%N; cb_action := a;
                cb_title := the (automationName st1); cb_image := Some keyImage |}).
  set (s1 := exec (onKeyUp env1 a st1) s).
  assert (H1 : timers s1 = enqueue t1 (timers s) ∧ now s1 = now s).
  { unfold s1, exec. rewrite (onKeyUp_success env1 a st1 s r Hc Hi Hn Hf Hok).
    split; reflexivity. }
  destruct H1 as [Ht1 Hn1].
  set (s2 := elapse d s1).
  destruct (elapse_timers d s1) as [Ht2 Hn2]. fold s2 in Ht2, Hn2.
  assert (E3 : s3 = exec (onKeyUp env2 a st2) s2) by reflexivity.
  destruct (onKeyUp_shape env2 a st2 s2)
    as (title2 & image2 & delay2 & mid & Hk & Hdel & Etm & _ & Enh & Eno & _).
  set (t2 := {| handle := nextHandle mid; due := (now mid + delay2)%N; cb_action := a;
                cb_title := title2; cb_image := image2 |}).
  assert (H3 : timers s3 = enqueue t2 (timers s2) ∧ now s3 = now s2).
  { rewrite E3. unfold exec. rewrite Hk. simpl. rewrite Etm. split; [reflexivity | exact Eno]. }
  destruct H3 as [Ht3 Hn3].
  assert (Hdue2 : (now s + 2000 < due t2)%N).
  { simpl. rewrite Eno, Hn2, Hn1. destruct Hdel as [->| ->]; lia. }
  assert (Hnow : (now s3 + (2000 - d) = now s + 2000)%N).
  { rewrite Hn3, Hn2, Hn1. lia. }
  assert (Hfired : filter (λ x, (due x ≤ now s3 + (2000 - d))%N) (timers s3)
                   = filter (λ x, ¬ (due x ≤ now s1 + d)%N)
                       (filter (λ x, (due x ≤ due t1)%N) (timers s)) ++ [t1]).
  { rewrite Hnow, Ht3, Ht2, Ht1.
    rewrite filter_enqueue_out by lia.
    rewrite filter_swap.
    change (filter (λ x, (due x ≤ now s + 2000)%N) (enqueue t1 (timers s)))
      with (filter (λ x, (due x ≤ due t1)%N) (enqueue t1 (timers s))).
    rewrite (enqueue_fires_last t1 (timers s) (wf_sorted s Hs)).
    rewrite filter_app. f_equal.
    rewrite filter_cons_True by (simpl; rewrite Hn1; lia). reflexivity. }
  destruct (elapse_last (2000 - d) s3 t1 _ Hfired) as [s0 E4].
  split; [|split].
  - unfold s4. rewrite E4. js_unfold callback. simpl. apply lookup_insert_eq.
  - unfold s4. rewrite E4. js_unfold callback. simpl. apply lookup_insert_eq.
  - exists t2. destruct (elapse_timers (2000 - d) s3) as [Et4 En4].
    fold s4 in Et4, En4. rewrite Et4, En4, Hnow.
    split; [|split; [reflexivity | exact Hdue2]].
    apply list_elem_of_filter. split; [lia|].
    rewrite Ht3. apply elem_of_enqueue. left. reflexivity.
Qed.

Lemma overlapping_presses_witness :
  let env := calm (Responds {| status := 200; body := BodyJson None |}) in
  let st1 := {| automationId := Some "a1"; automationName := Some "Lights" |} in
  let s3 := run [KeyUp env "button" st1; Elapse 1500;
                 KeyUp (calm (Rejects (ErrorObject "offline"))) "button" st1]
              (initial {["apiKey" := "abcdefghijkl"]}) in
  titles s3 !! "button" = Some ("Error" +:+ nl +:+ "Failed") ∧
  titles (elapse 500 s3) !! "button" = Some "Lights".
Proof.
  intros env st1 s3. split; [reflexivity|].
  assert (Hc : truthy (storedCredential env
                         (run [] (initial {["apiKey" := "abcdefghijkl"]}))) = true)
    by reflexivity.
  assert (Hconf : configured st1 = true) by reflexivity.
  assert (Hd : (0 < 1500 < 2000)%N) by lia.
  destruct (overlapping_presses {["apiKey" := "abcdefghijkl"]} [] env
              (calm (Rejects (ErrorObject "offline"))) "button" st1 st1
              {| status := 200; body := BodyJson None |} 1500 Hc Hconf eq_refl eq_refl Hd)
    as (H1 & _ & _).
  exact H1.
Defined.

(** ** The catalogue check after a settings change *)

(** X22: [validateApiKeyAndFetchAutomations] sends one request, relays
    one message and ends normally.  The message is [automationsLoaded] with
    the catalogue when the answer is ok and its body can be read,
    [apiKeyError] with "API key validation failed: " and the status when the
    answer is not ok, and [apiKeyError] with the fixed text "Connection
    error - check your internet connection" when the request is rejected or
    the body cannot be read; nothing of a thrown value is relayed. *)
Theorem catalogue_check_relays_one_message (env : Env) (key : string) (s : State) :
  env_ui env = true →
  ∃ p,
    validateApiKeyAndFetchAutomations env key s
    = (Normal tt,
       logged (SendToPropertyInspector p) (logged (HttpGet automationsUrl key) s)) ∧
    match env_fetch env with
    | Responds r =>
        if ok r then
          match body r with
          | BodyJson l => p = automationsLoaded (default [] l)
          | BodyFails _ =>
              p = apiKeyError "Connection error - check your internet connection"
          end
        else p = apiKeyError ("API key validation failed: " +:+ showN (status r))
    | Rejects _ => p = apiKeyError "Connection error - check your internet connection"
    end.
Proof.
  intros Hui. js_unfold validateApiKeyAndFetchAutomations. rewrite Hui.
  destruct (env_fetch env) as [r|e]; simpl;
    [destruct (ok r); simpl; [destruct (body r) as [l|e]; simpl|]|];
    eexists; split; reflexivity.
Qed.

Lemma catalogue_check_relays_one_message_witness :
  ∃ p,
    validateApiKeyAndFetchAutomations
      (calm (Responds {| status := 200; body := BodyFails (ErrorObject "Unexpected token") |}))
      "abcdefghijkl" (initial ∅)
    = (Normal tt,
       logged (SendToPropertyInspector p)
         (logged (HttpGet automationsUrl "abcdefghijkl") (initial ∅))) ∧
    p = apiKeyError "Connection error - check your internet connection".
Proof.
  destruct (catalogue_check_relays_one_message
              (calm (Responds {| status := 200;
                                 body := BodyFails (ErrorObject "Unexpected token") |}))
              "abcdefghijkl" (initial ∅) eq_refl) as (p & E & H).
  exists p. split; [exact E | exact H].
Defined.
